(** * CHIP-8 interpreter core: a shallow embedding of [chip8.cpp] / [chip8.h]

    The class [Chip8] becomes a record of integers and lists; every member
    function becomes a function on that record.  Fixed-width C++ integers
    are integers of [Z] with the conversion to [uint8_t] / [uint16_t]
    written out ([wrap8], [wrap16]).  [std::array::operator[]] performs no
    bounds check, so an access outside the array is undefined behaviour: the
    model makes every array access checked and lets an out-of-range index
    surface as an explicit [Undefined] outcome naming the array and index.
    Lines written to [std::cerr] are collected as a list of [diagnostic]s;
    the informational lines written to [std::cout] are not modelled. *)

From Stdlib Require Import ZArith List Bool Lia.
From Stdlib Require Import Strings.Byte.
From stdpp Require Import base tactics option list numbers.

Local Open Scope Z_scope.

(** ** Constants of [chip8.h] *)

Definition MEMORY_SIZE : Z := 4096.
Definition REGISTER_COUNT : Z := 16.
Definition STACK_SIZE : Z := 16.
Definition KEY_COUNT : Z := 16.
Definition DISPLAY_WIDTH : Z := 64.
Definition DISPLAY_HEIGHT : Z := 32.
Definition FONTSET_SIZE : Z := 80.
Definition ROM_START_ADDRESS : Z := 0x200.

Definition fontset : list Z :=
  [ 0xF0; 0x90; 0x90; 0x90; 0xF0;
    0x20; 0x60; 0x20; 0x20; 0x70;
    0xF0; 0x10; 0xF0; 0x80; 0xF0;
    0xF0; 0x10; 0xF0; 0x10; 0xF0;
    0x90; 0x90; 0xF0; 0x10; 0x10;
    0xF0; 0x80; 0xF0; 0x10; 0xF0;
    0xF0; 0x80; 0xF0; 0x90; 0xF0;
    0xF0; 0x10; 0x20; 0x40; 0x40;
    0xF0; 0x90; 0xF0; 0x90; 0xF0;
    0xF0; 0x90; 0xF0; 0x10; 0xF0;
    0xF0; 0x90; 0xF0; 0x90; 0x90;
    0xE0; 0x90; 0xE0; 0x90; 0xE0;
    0xF0; 0x80; 0x80; 0x80; 0xF0;
    0xE0; 0x90; 0x90; 0x90; 0xE0;
    0xF0; 0x80; 0xF0; 0x80; 0xF0;
    0xF0; 0x80; 0xF0; 0x80; 0x80 ].

(** ** Fixed-width integers *)

Definition wrap8 (z : Z) : Z := z mod 256.
Definition wrap16 (z : Z) : Z := z mod 65536.

Definition is_u8 (z : Z) : Prop := 0 <= z < 256.
Definition is_u16 (z : Z) : Prop := 0 <= z < 65536.

#[global] Instance is_u8_dec z : Decision (is_u8 z).
Proof. unfold is_u8. apply _. Defined.

#[global] Instance is_u16_dec z : Decision (is_u16 z).
Proof. unfold is_u16. apply _. Defined.

(** ** The machine state: the data members of [class Chip8] *)

Record Chip8 : Type := mkChip8 {
  memory : list Z;      (* std::array<uint8_t, MEMORY_SIZE> *)
  V : list Z;           (* std::array<uint8_t, REGISTER_COUNT> *)
  I : Z;                (* uint16_t *)
  pc : Z;               (* uint16_t *)
  display : list Z;     (* std::array<uint8_t, DISPLAY_WIDTH * DISPLAY_HEIGHT> *)
  drawFlag : bool;
  delayTimer : Z;       (* uint8_t *)
  soundTimer : Z;       (* uint8_t *)
  stack : list Z;       (* std::array<uint16_t, STACK_SIZE> *)
  sp : Z;               (* uint8_t *)
  keys : list bool;     (* std::array<bool, KEY_COUNT> *)
  opcode : Z            (* uint16_t *)
}.

Definition set_memory (x : list Z) (s : Chip8) : Chip8 :=
  mkChip8 x (V s) (I s) (pc s) (display s) (drawFlag s) (delayTimer s)
          (soundTimer s) (stack s) (sp s) (keys s) (opcode s).
Definition set_V (x : list Z) (s : Chip8) : Chip8 :=
  mkChip8 (memory s) x (I s) (pc s) (display s) (drawFlag s) (delayTimer s)
          (soundTimer s) (stack s) (sp s) (keys s) (opcode s).
Definition set_I (x : Z) (s : Chip8) : Chip8 :=
  mkChip8 (memory s) (V s) x (pc s) (display s) (drawFlag s) (delayTimer s)
          (soundTimer s) (stack s) (sp s) (keys s) (opcode s).
Definition set_pc (x : Z) (s : Chip8) : Chip8 :=
  mkChip8 (memory s) (V s) (I s) x (display s) (drawFlag s) (delayTimer s)
          (soundTimer s) (stack s) (sp s) (keys s) (opcode s).
Definition set_display (x : list Z) (s : Chip8) : Chip8 :=
  mkChip8 (memory s) (V s) (I s) (pc s) x (drawFlag s) (delayTimer s)
          (soundTimer s) (stack s) (sp s) (keys s) (opcode s).
Definition set_drawFlag (x : bool) (s : Chip8) : Chip8 :=
  mkChip8 (memory s) (V s) (I s) (pc s) (display s) x (delayTimer s)
          (soundTimer s) (stack s) (sp s) (keys s) (opcode s).
Definition set_delayTimer (x : Z) (s : Chip8) : Chip8 :=
  mkChip8 (memory s) (V s) (I s) (pc s) (display s) (drawFlag s) x
          (soundTimer s) (stack s) (sp s) (keys s) (opcode s).
Definition set_soundTimer (x : Z) (s : Chip8) : Chip8 :=
  mkChip8 (memory s) (V s) (I s) (pc s) (display s) (drawFlag s) (delayTimer s)
          x (stack s) (sp s) (keys s) (opcode s).
Definition set_stack (x : list Z) (s : Chip8) : Chip8 :=
  mkChip8 (memory s) (V s) (I s) (pc s) (display s) (drawFlag s) (delayTimer s)
          (soundTimer s) x (sp s) (keys s) (opcode s).
Definition set_sp (x : Z) (s : Chip8) : Chip8 :=
  mkChip8 (memory s) (V s) (I s) (pc s) (display s) (drawFlag s) (delayTimer s)
          (soundTimer s) (stack s) x (keys s) (opcode s).
Definition set_keys (x : list bool) (s : Chip8) : Chip8 :=
  mkChip8 (memory s) (V s) (I s) (pc s) (display s) (drawFlag s) (delayTimer s)
          (soundTimer s) (stack s) (sp s) x (opcode s).
Definition set_opcode (x : Z) (s : Chip8) : Chip8 :=
  mkChip8 (memory s) (V s) (I s) (pc s) (display s) (drawFlag s) (delayTimer s)
          (soundTimer s) (stack s) (sp s) (keys s) x.

(** ** Outcomes: undefined behaviour and the error stream *)

Inductive fault : Type :=
| MemoryOutOfBounds (i : Z)      (* memory[i] with i outside 0..4095 *)
| RegisterOutOfBounds (i : Z)    (* V[i] with i outside 0..15 *)
| StackOutOfBounds (i : Z).      (* stack[i] with i outside 0..15 *)

Inductive outcome (A : Type) : Type :=
| Done (a : A)
| Undefined (f : fault).
Arguments Done {A} a.
Arguments Undefined {A} f.

#[global] Instance outcome_ret : MRet outcome := fun _ a => Done a.
#[global] Instance outcome_bind : MBind outcome := fun _ _ k m =>
  match m with
  | Done a => k a
  | Undefined f => Undefined f
  end.

(** What the code prints on [std::cerr]. *)
Inductive diagnostic : Type :=
| RomOpenFailed              (* [ERROR] Failed to open ROM *)
| RomTooLarge (size : Z)     (* [ERROR] ROM too large / Maximum size *)
| UnknownOpcode (op : Z)     (* [ERROR] Unknown opcode: 0x.. *)
| TodoArithmetic             (* [TODO] Implement 0x8XYN opcodes *)
| NotImplemented (op : Z).   (* [TODO] Opcode not yet implemented: 0x.. *)

(** [arr[i]] as an rvalue and [arr[i] = v], for a [std::array]. *)
Definition index {A} (oob : Z -> fault) (arr : list A) (i : Z) : outcome A :=
  if (0 <=? i) && (i <? Z.of_nat (length arr)) then
    match arr !! Z.to_nat i with
    | Some v => Done v
    | None => Undefined (oob i)
    end
  else Undefined (oob i).

Definition assign {A} (oob : Z -> fault) (arr : list A) (i : Z) (v : A)
  : outcome (list A) :=
  if (0 <=? i) && (i <? Z.of_nat (length arr)) then
    Done (<[Z.to_nat i := v]> arr)
  else Undefined (oob i).

(** ** [Chip8::Chip8] and [Chip8::initialize] *)

Definition blank_memory : list Z := replicate (Z.to_nat MEMORY_SIZE) 0.
Definition blank_display : list Z :=
  replicate (Z.to_nat (DISPLAY_WIDTH * DISPLAY_HEIGHT)) 0.

(** [std::copy(fontset.begin(), fontset.end(), memory.begin())] *)
Definition copy_fontset (mem : list Z) : list Z :=
  fontset ++ drop (length fontset) mem.

Definition initialize (_ : Chip8) : Chip8 :=
  {| pc := ROM_START_ADDRESS;
     opcode := 0;
     I := 0;
     sp := 0;
     display := blank_display;
     drawFlag := true;
     stack := replicate (Z.to_nat STACK_SIZE) 0;
     V := replicate (Z.to_nat REGISTER_COUNT) 0;
     memory := copy_fontset blank_memory;
     delayTimer := 0;
     soundTimer := 0;
     keys := replicate (Z.to_nat KEY_COUNT) false |}.

(** The constructor only calls [initialize], which overwrites every member. *)
Definition Chip8_new : Chip8 :=
  initialize (mkChip8 [] [] 0 0 [] false 0 0 [] 0 [] 0).

(** ** [Chip8::loadROM] *)

Definition byte_val (b : byte) : Z := Z.of_N (Byte.to_N b).

(** [file.read(&memory[addr], size)]: the bytes are stored one after the
    other from [addr] on. *)
Fixpoint read_into (mem : list Z) (addr : nat) (bytes : list byte) : list Z :=
  match bytes with
  | [] => mem
  | b :: rest => read_into (<[addr := byte_val b]> mem) (S addr) rest
  end.

(** [file] is the content found under the file name, [None] when the file
    cannot be opened.  The result is the returned flag, the state and the
    lines printed on the error stream. *)
Definition loadROM (file : option (list byte)) (s : Chip8)
  : bool * Chip8 * list diagnostic :=
  match file with
  | None => (false, s, [RomOpenFailed])
  | Some bytes =>
      let size := Z.of_nat (length bytes) in
      if size >? MEMORY_SIZE - ROM_START_ADDRESS then
        (false, s, [RomTooLarge size])
      else
        (true,
         set_memory (read_into (memory s) (Z.to_nat ROM_START_ADDRESS) bytes) s,
         [])
  end.

(** ** [Chip8::emulateCycle] and [Chip8::executeOpcode] *)

(** [(memory[pc] << 8) | memory[pc + 1]], converted to [uint16_t]. *)
Definition fetch (s : Chip8) : outcome Z :=
  hi ← index MemoryOutOfBounds (memory s) (pc s);
  lo ← index MemoryOutOfBounds (memory s) (pc s + 1);
  mret (wrap16 (Z.lor (Z.shiftl hi 8) lo)).

(** The [switch] on [opcode & 0xF000] is written as a chain of comparisons
    in the order of its cases, and the inner [switch (NN)] likewise; the
    cases 0xB000 to 0xF000 have no body of their own and share [default]. *)
Definition executeOpcode (s : Chip8) : outcome (Chip8 * list diagnostic) :=
  let X := wrap8 (Z.shiftr (Z.land (opcode s) 0x0F00) 8) in
  let Y := wrap8 (Z.shiftr (Z.land (opcode s) 0x00F0) 4) in
  let N := wrap8 (Z.land (opcode s) 0x000F) in
  let NN := wrap8 (Z.land (opcode s) 0x00FF) in
  let NNN := wrap16 (Z.land (opcode s) 0x0FFF) in
  let family := Z.land (opcode s) 0xF000 in
  if family =? 0x0000 then
    if NN =? 0xE0 then                       (* 00E0: clear screen *)
      mret (set_pc (wrap16 (pc s + 2))
              (set_drawFlag true (set_display blank_display s)), [])
    else if NN =? 0xEE then                  (* 00EE: return *)
      let sp' := wrap8 (sp s - 1) in
      ra ← index StackOutOfBounds (stack s) sp';
      mret (set_pc (wrap16 (ra + 2)) (set_sp sp' s), [])
    else
      mret (set_pc (wrap16 (pc s + 2)) s, [UnknownOpcode (opcode s)])
  else if family =? 0x1000 then              (* 1NNN: jump *)
    mret (set_pc NNN s, [])
  else if family =? 0x2000 then              (* 2NNN: call *)
    stk ← assign StackOutOfBounds (stack s) (sp s) (pc s);
    mret (set_pc NNN (set_sp (wrap8 (sp s + 1)) (set_stack stk s)), [])
  else if family =? 0x3000 then              (* 3XNN *)
    vx ← index RegisterOutOfBounds (V s) X;
    mret (set_pc (wrap16 (pc s + (if vx =? NN then 4 else 2))) s, [])
  else if family =? 0x4000 then              (* 4XNN *)
    vx ← index RegisterOutOfBounds (V s) X;
    mret (set_pc (wrap16 (pc s + (if negb (vx =? NN) then 4 else 2))) s, [])
  else if family =? 0x5000 then              (* 5XY0 *)
    vx ← index RegisterOutOfBounds (V s) X;
    vy ← index RegisterOutOfBounds (V s) Y;
    mret (set_pc (wrap16 (pc s + (if vx =? vy then 4 else 2))) s, [])
  else if family =? 0x6000 then              (* 6XNN *)
    regs ← assign RegisterOutOfBounds (V s) X NN;
    mret (set_pc (wrap16 (pc s + 2)) (set_V regs s), [])
  else if family =? 0x7000 then              (* 7XNN *)
    vx ← index RegisterOutOfBounds (V s) X;
    regs ← assign RegisterOutOfBounds (V s) X (wrap8 (vx + NN));
    mret (set_pc (wrap16 (pc s + 2)) (set_V regs s), [])
  else if family =? 0x8000 then              (* 8XYN: placeholder *)
    mret (set_pc (wrap16 (pc s + 2)) s, [TodoArithmetic])
  else if family =? 0x9000 then              (* 9XY0 *)
    vx ← index RegisterOutOfBounds (V s) X;
    vy ← index RegisterOutOfBounds (V s) Y;
    mret (set_pc (wrap16 (pc s + (if negb (vx =? vy) then 4 else 2))) s, [])
  else if family =? 0xA000 then              (* ANNN *)
    mret (set_pc (wrap16 (pc s + 2)) (set_I NNN s), [])
  else                                       (* 0xB000 .. 0xF000, default *)
    mret (set_pc (wrap16 (pc s + 2)) s, [NotImplemented (opcode s)]).

Definition emulateCycle (s : Chip8) : outcome (Chip8 * list diagnostic) :=
  op ← fetch s;
  executeOpcode (set_opcode op s).

(** ** [Chip8::updateTimers], [setKey], [getPixel] and the inline accessors *)

Definition updateTimers (s : Chip8) : Chip8 :=
  let s1 := if delayTimer s >? 0
            then set_delayTimer (wrap8 (delayTimer s - 1)) s else s in
  if soundTimer s1 >? 0
  then set_soundTimer (wrap8 (soundTimer s1 - 1)) s1 else s1.

Definition setKey (key : Z) (pressed : bool) (s : Chip8) : Chip8 :=
  if key <? KEY_COUNT then set_keys (<[Z.to_nat key := pressed]> (keys s)) s
  else s.

(** The guard keeps the index inside [display]. *)
Definition getPixel (x y : Z) (s : Chip8) : bool :=
  if (x >=? DISPLAY_WIDTH) || (y >=? DISPLAY_HEIGHT) then false
  else match display s !! Z.to_nat (y * DISPLAY_WIDTH + x) with
       | Some p => negb (p =? 0)
       | None => false
       end.

Definition shouldDraw (s : Chip8) : bool := drawFlag s.
Definition clearDrawFlag (s : Chip8) : Chip8 := set_drawFlag false s.
Definition shouldBeep (s : Chip8) : bool := soundTimer s >? 0.

(** ** Running several cycles *)

(** [n] calls of [emulateCycle], with everything printed on the way. *)
Fixpoint run (n : nat) (s : Chip8) : outcome (Chip8 * list diagnostic) :=
  match n with
  | O => mret (s, [])
  | S n' =>
      '(s1, out1) ← emulateCycle s;
      '(s2, out2) ← run n' s1;
      mret (s2, out1 ++ out2)
  end.

(** The state [main] starts from: construct, then load the ROM. *)
Definition boot (rom : list byte) : Chip8 := (loadROM (Some rom) Chip8_new).1.2.

(** ** Values of the class: what the C++ types guarantee *)

Definition wf (s : Chip8) : Prop :=
  Z.of_nat (length (memory s)) = MEMORY_SIZE ∧ Forall is_u8 (memory s) ∧
  Z.of_nat (length (V s)) = REGISTER_COUNT ∧ Forall is_u8 (V s) ∧
  is_u16 (I s) ∧ is_u16 (pc s) ∧
  Z.of_nat (length (display s)) = DISPLAY_WIDTH * DISPLAY_HEIGHT ∧
  Forall is_u8 (display s) ∧
  is_u8 (delayTimer s) ∧ is_u8 (soundTimer s) ∧
  Z.of_nat (length (stack s)) = STACK_SIZE ∧ Forall is_u16 (stack s) ∧
  is_u8 (sp s) ∧
  Z.of_nat (length (keys s)) = KEY_COUNT ∧
  is_u16 (opcode s).

#[global] Instance wf_dec s : Decision (wf s).
Proof. unfold wf. apply _. Defined.

(** ** States the driver can reach

    The driver constructs the machine and then calls its public member
    functions in any order.  [P] restricts the states in which a cycle may
    be executed (used to rule out programs that jump to odd or out-of-range
    addresses); a cycle that runs into undefined behaviour ends the run. *)

Inductive reachable_by (P : Chip8 → Prop) : Chip8 → Prop :=
| reach_new : reachable_by P Chip8_new
| reach_initialize s : reachable_by P s → reachable_by P (initialize s)
| reach_loadROM s file :
    reachable_by P s → reachable_by P (loadROM file s).1.2
| reach_emulateCycle s s' out :
    reachable_by P s → P s → emulateCycle s = Done (s', out) →
    reachable_by P s'
| reach_updateTimers s : reachable_by P s → reachable_by P (updateTimers s)
| reach_setKey s key pressed :
    reachable_by P s → is_u8 key → reachable_by P (setKey key pressed s)
| reach_clearDrawFlag s : reachable_by P s → reachable_by P (clearDrawFlag s).

Definition reachable : Chip8 → Prop := reachable_by (λ _, True).

(** A jump (1NNN) or call (2NNN) word whose target is odd or outside
    0x200..0xFFE; every other word passes. *)
Definition branch_target_ok (op : Z) : bool :=
  let family := Z.land op 0xF000 in
  let NNN := Z.land op 0x0FFF in
  if (family =? 0x1000) || (family =? 0x2000) then
    Z.even NNN && (0x200 <=? NNN) && (NNN <=? 0xFFE)
  else true.

(** The instruction about to be executed is not a jump or call to an odd
    or out-of-range address. *)
Definition proper_branch (s : Chip8) : Prop :=
  ∀ op, fetch s = Done op → branch_target_ok op = true.

Definition reachable_without_stray_branch : Chip8 → Prop :=
  reachable_by proper_branch.

Definition pc_in_work_area (s : Chip8) : Prop :=
  0x200 <= pc s <= 0xFFE ∧ Z.even (pc s) = true.

(** The word is a return: family 0 with low byte EE. *)
Definition is_return (op : Z) : bool :=
  (Z.land op 0xF000 =? 0x0000) && (wrap8 (Z.land op 0x00FF) =? 0xEE).

(** The word is a jump (1NNN) or a call (2NNN). *)
Definition is_jump_or_call (op : Z) : bool :=
  (Z.land op 0xF000 =? 0x1000) || (Z.land op 0xF000 =? 0x2000).

(** The cycle about to be executed indexes no array out of bounds: the
    fetch reads below the end of memory, a call finds fewer than 16 entries
    on the stack, a return finds at least one. *)
Definition in_bounds_step (s : Chip8) : Prop :=
  pc s <= 0xFFE ∧
  ∀ op, fetch s = Done op →
        (Z.land op 0xF000 = 0x2000 → sp s < 16) ∧
        (is_return op = true → 1 <= sp s).

(** [n] cycles, none of which is a jump or call to an odd or out-of-range
    address; [None] when one is, or when a cycle has no defined result. *)
Fixpoint run_checked (n : nat) (s : Chip8) : option Chip8 :=
  match n with
  | O => Some s
  | S n' =>
      match fetch s with
      | Done op =>
          if branch_target_ok op then
            match emulateCycle s with
            | Done (s1, _) => run_checked n' s1
            | Undefined _ => None
            end
          else None
      | Undefined _ => None
      end
  end.

(** What holds of PC, stack pointer and live stack entries in every state
    reached without a stray jump or call. *)
Definition aligned_in (lo hi a : Z) : Prop := lo <= a <= hi ∧ Z.even a = true.

Definition control_invariant (s : Chip8) : Prop :=
  wf s ∧
  aligned_in 0x200 0x1002 (pc s) ∧
  sp s <= 16 ∧
  ∀ (i : nat) ra,
    Z.of_nat i < sp s → stack s !! i = Some ra → aligned_in 0x200 0xFFE ra.

(** ** The instruction table of the specification

    Written from the table of word patterns in the specification (section
    4.3), not from the code: [spec_known_pattern w] holds when the 16-bit
    word [w] matches one of the listed patterns.  It is compared below with
    what the decoder in [executeOpcode] accepts. *)

Definition spec_known_pattern (w : Z) : bool :=
  let first := w / 4096 in
  let N := w mod 16 in
  let NN := w mod 256 in
  if first =? 0x0 then (w =? 0x00E0) || (w =? 0x00EE)
  else if (first =? 0x5) || (first =? 0x9) then N =? 0
  else if first =? 0x8 then (N <=? 7) || (N =? 0xE)
  else if first =? 0xE then (NN =? 0x9E) || (NN =? 0xA1)
  else if first =? 0xF then
    existsb (Z.eqb NN) [0x07; 0x0A; 0x15; 0x18; 0x1E; 0x29; 0x33; 0x55; 0x65]
  else (1 <=? first) && (first <=? 0xD).

(** Words outside the table that the decoder nevertheless executes, because
    it looks only at the first nibble (families 5 and 9) or only at the low
    byte (family 0). *)
Definition decoded_loosely (w : Z) : bool :=
  let family := Z.land w 0xF000 in
  let NN := Z.land w 0x00FF in
  negb (spec_known_pattern w) &&
  ((family =? 0x5000) || (family =? 0x9000) ||
   ((family =? 0x0000) && ((NN =? 0xE0) || (NN =? 0xEE)))).

(** ** [main.cpp]: keyboard and display glue

    The raylib calls are the environment of these functions.  The key
    queries [IsKeyDown] and [IsKeyUp] are taken as parameters; the drawing
    calls a frame makes are collected in the order they are made. *)

Definition SCALE_FACTOR : Z := 15.
Definition WINDOW_WIDTH : Z := DISPLAY_WIDTH * SCALE_FACTOR.
Definition WINDOW_HEIGHT : Z := DISPLAY_HEIGHT * SCALE_FACTOR.

(** The sixteen raylib key constants [keyMap] names (sixteen different key
    codes of raylib.h). *)
Inductive raylib_key : Type :=
| KEY_ONE | KEY_TWO | KEY_THREE | KEY_FOUR
| KEY_Q | KEY_W | KEY_E | KEY_R
| KEY_A | KEY_S | KEY_D | KEY_F
| KEY_Z | KEY_X | KEY_C | KEY_V.

Record KeyMapping : Type := mkKeyMapping {
  raylibKey : raylib_key;
  chip8Key : Z           (* uint8_t *)
}.

Definition keyMap : list KeyMapping :=
  [ mkKeyMapping KEY_ONE 0x1; mkKeyMapping KEY_TWO 0x2;
    mkKeyMapping KEY_THREE 0x3; mkKeyMapping KEY_FOUR 0xC;
    mkKeyMapping KEY_Q 0x4; mkKeyMapping KEY_W 0x5;
    mkKeyMapping KEY_E 0x6; mkKeyMapping KEY_R 0xD;
    mkKeyMapping KEY_A 0x7; mkKeyMapping KEY_S 0x8;
    mkKeyMapping KEY_D 0x9; mkKeyMapping KEY_F 0xE;
    mkKeyMapping KEY_Z 0xA; mkKeyMapping KEY_X 0x0;
    mkKeyMapping KEY_C 0xB; mkKeyMapping KEY_V 0xF ].

(** The body of the loop in [handleInput], for one entry of the table. *)
Definition handleMapping (IsKeyDown IsKeyUp : raylib_key → bool)
    (chip8 : Chip8) (mapping : KeyMapping) : Chip8 :=
  if IsKeyDown (raylibKey mapping) then setKey (chip8Key mapping) true chip8
  else if IsKeyUp (raylibKey mapping) then setKey (chip8Key mapping) false chip8
  else chip8.

Definition handleInput (IsKeyDown IsKeyUp : raylib_key → bool)
    (chip8 : Chip8) : Chip8 :=
  foldl (handleMapping IsKeyDown IsKeyUp) chip8 keyMap.

Inductive color : Type := BLACK | WHITE | GREEN.

Inductive draw_call : Type :=
| BeginDrawing
| ClearBackground (c : color)
| DrawRectangle (posX posY width height : Z) (c : color)
| DrawFPS (fps posX posY fontSize : Z) (c : color)   (* DrawText (TextFormat ..) *)
| EndDrawing.

(** [fps] is what [GetFPS] returns.  [getPixel] takes [uint8_t] arguments,
    so the loop counters are converted on the call. *)
Definition renderDisplay (fps : Z) (chip8 : Chip8) : list draw_call :=
  [BeginDrawing; ClearBackground BLACK] ++
  (y ← seqZ 0 DISPLAY_HEIGHT;
   x ← seqZ 0 DISPLAY_WIDTH;
   if getPixel (wrap8 x) (wrap8 y) chip8
   then [DrawRectangle (x * SCALE_FACTOR) (y * SCALE_FACTOR)
                       SCALE_FACTOR SCALE_FACTOR WHITE]
   else []) ++
  [DrawFPS fps 10 10 20 GREEN; EndDrawing].

(** ** Programs and states used in the examples *)

(** V1 := 200; V2 := 100; 8124 (V1 += V2 with carry). *)
Definition prog_add_carry : list byte := [x61; xc8; x62; x64; x81; x24].

(** A call to 0x210. *)
Definition prog_call : list byte := [x22; x10].

(** A call to 0x210, where a return instruction sits. *)
Definition prog_call_return : list byte :=
  [x22; x10] ++ replicate 14 x00 ++ [x00; xee].

(** A subroutine at 0x200 that calls itself. *)
Definition prog_recursion : list byte := [x22; x00].

(** A return as the first instruction. *)
Definition prog_return : list byte := [x00; xee].

(** V0..V2 := 1, 2, 3; I := 0x220; store V0..V2; V0..V2 := 0; load V0..V2. *)
Definition prog_roundtrip : list byte :=
  [x60; x01; x61; x02; x62; x03; xa2; x20; xf2; x55;
   x60; x00; x61; x00; x62; x00; xf2; x65].

(** The word 0x5121, and the word 0x01E0. *)
Definition prog_5121 : list byte := [x51; x21].
Definition prog_01E0 : list byte := [x01; xe0].

(** A jump to 0xFFF. *)
Definition prog_jump_FFF : list byte := [x1f; xff].

(** No program at all: memory past the font is zero, every word fetched is
    0000, and after 1791 cycles PC has walked to the last word of memory. *)
Definition end_of_memory : Chip8 := set_pc 0xFFE (boot []).

(** A jump to 0xFFC, and the state after it: PC at the last but one word
    of memory, which holds 0000. *)
Definition prog_jump_FFC : list byte := [x1f; xfc].
Definition near_end_of_memory : Chip8 :=
  set_pc 0xFFC (set_opcode 0x1FFC (boot prog_jump_FFC)).

(** The state after the call of [prog_call]: one entry on the stack. *)
Definition after_call : Chip8 :=
  set_pc 0x210
    (set_sp 1
       (set_stack (<[0%nat := 0x200]> (stack Chip8_new))
          (set_opcode 0x2210 (boot prog_call)))).

(** V0 := 5; V0 += 10. *)
Definition prog_set_add : list byte := [x60; x05; x70; x0a].

(** * Basic facts *)

Lemma wf_check s : bool_decide (wf s) = true → wf s.
Proof. intros H. by apply bool_decide_eq_true in H. Qed.

Section Wrap.

Lemma wrap8_id z : is_u8 z → wrap8 z = z.
Proof. unfold is_u8, wrap8. intros. by apply Z.mod_small. Qed.

Lemma wrap16_id z : is_u16 z → wrap16 z = z.
Proof. unfold is_u16, wrap16. intros. by apply Z.mod_small. Qed.

Lemma wrap8_u8 z : is_u8 (wrap8 z).
Proof. unfold is_u8, wrap8. apply Z.mod_pos_bound. lia. Qed.

Lemma wrap16_u16 z : is_u16 (wrap16 z).
Proof. unfold is_u16, wrap16. apply Z.mod_pos_bound. lia. Qed.

End Wrap.

Section Arrays.
Context {A : Type}.
Implicit Types (arr : list A) (i : Z) (oob : Z → fault).

Lemma index_in_bounds oob arr i :
  0 <= i < Z.of_nat (length arr) →
  ∃ v, index oob arr i = Done v ∧ arr !! Z.to_nat i = Some v.
Proof.
  intros Hi. unfold index.
  replace ((0 <=? i) && (i <? Z.of_nat (length arr))) with true
    by (symmetry; apply andb_true_iff; split; [apply Z.leb_le|apply Z.ltb_lt]; lia).
  destruct (lookup_lt_is_Some_2 arr (Z.to_nat i)) as [v Hv]; [lia|].
  exists v. by rewrite Hv.
Qed.

Lemma index_out_of_bounds oob arr i :
  ¬ (0 <= i < Z.of_nat (length arr)) → index oob arr i = Undefined (oob i).
Proof.
  intros Hi. unfold index.
  destruct (Z.leb_spec 0 i), (Z.ltb_spec i (Z.of_nat (length arr))); simpl;
    try done; lia.
Qed.

Lemma index_Done_inv oob arr i v :
  index oob arr i = Done v →
  0 <= i < Z.of_nat (length arr) ∧ arr !! Z.to_nat i = Some v.
Proof.
  unfold index.
  destruct (Z.leb_spec 0 i), (Z.ltb_spec i (Z.of_nat (length arr))); simpl;
    try done.
  destruct (arr !! Z.to_nat i) eqn:E; [|done]. intros [= ->]. split; [lia|done].
Qed.

Lemma assign_in_bounds oob arr i v :
  0 <= i < Z.of_nat (length arr) →
  assign oob arr i v = Done (<[Z.to_nat i := v]> arr).
Proof.
  intros Hi. unfold assign.
  destruct (Z.leb_spec 0 i), (Z.ltb_spec i (Z.of_nat (length arr))); simpl;
    try done; lia.
Qed.

Lemma assign_out_of_bounds oob arr i v :
  ¬ (0 <= i < Z.of_nat (length arr)) → assign oob arr i v = Undefined (oob i).
Proof.
  intros Hi. unfold assign.
  destruct (Z.leb_spec 0 i), (Z.ltb_spec i (Z.of_nat (length arr))); simpl;
    try done; lia.
Qed.

End Arrays.

Lemma byte_val_u8 b : is_u8 (byte_val b).
Proof.
  unfold is_u8, byte_val. pose proof (Byte.to_N_bounded b) as H.
  lia.
Qed.

(** ** The loader's block copy *)

Section ReadInto.
Implicit Types (mem : list Z) (bytes : list byte).

Lemma read_into_length bytes : ∀ mem addr,
  length (read_into mem addr bytes) = length mem.
Proof.
  induction bytes as [|b rest IH]; intros mem addr; simpl; [done|].
  by rewrite IH, length_insert.
Qed.

Lemma read_into_outside bytes : ∀ mem addr a,
  (a < addr ∨ addr + length bytes ≤ a)%nat →
  read_into mem addr bytes !! a = mem !! a.
Proof.
  induction bytes as [|b rest IH]; intros mem addr a Ha; simpl in *; [done|].
  rewrite IH by lia. apply list_lookup_insert_ne. lia.
Qed.

Lemma read_into_inside bytes : ∀ mem addr i b,
  (addr + length bytes ≤ length mem)%nat →
  bytes !! i = Some b →
  read_into mem addr bytes !! (addr + i)%nat = Some (byte_val b).
Proof.
  induction bytes as [|b0 rest IH]; intros mem addr i b Hfit Hb; [done|].
  simpl in Hfit. destruct i as [|i]; simpl in *.
  - injection Hb as ->. rewrite read_into_outside by lia.
    rewrite Nat.add_0_r. apply list_lookup_insert_eq. lia.
  - replace (addr + S i)%nat with (S addr + i)%nat by lia.
    apply IH; [rewrite length_insert; lia | done].
Qed.

Lemma read_into_u8 bytes : ∀ mem addr,
  Forall is_u8 mem → Forall is_u8 (read_into mem addr bytes).
Proof.
  induction bytes as [|b rest IH]; intros mem addr Hmem; simpl; [done|].
  apply IH. apply Forall_insert; [done | apply byte_val_u8].
Qed.

End ReadInto.

(** ** Sequencing of outcomes *)

Lemma bind_Done_inv {A B} (m : outcome A) (k : A → outcome B) b :
  m ≫= k = Done b → ∃ a, m = Done a ∧ k a = Done b.
Proof. destruct m as [a|f]; [|done]. intros H. by exists a. Qed.

Lemma ret_Done_inv {A} (a b : A) : mret a = Done b → a = b.
Proof. by intros [= ->]. Qed.

Ltac outcome_inv :=
  repeat match goal with
    | H : _ ≫= _ = Done _ |- _ =>
        let a := fresh "a" in
        let Ha := fresh "Ha" in
        apply bind_Done_inv in H as (a & Ha & H)
    | H : mret _ = Done _ |- _ => apply ret_Done_inv in H
    | H : index _ _ _ = Done _ |- _ => apply index_Done_inv in H as [? ?]
    end.

(** ** Instruction fields *)

Section Fields.
Implicit Types op : Z.

Lemma land_F000 op : Z.land op 0xF000 = (op / 4096) mod 16 * 4096.
Proof.
  change 0xF000 with (Z.shiftl (Z.ones 4) 12).
  change 4096 with (2 ^ 12). change 16 with (2 ^ 4).
  rewrite <- Z.shiftl_mul_pow2, <- Z.land_ones, <- Z.shiftr_div_pow2 by lia.
  apply Z.bits_inj'. intros n Hn.
  rewrite Z.land_spec, !Z.shiftl_spec by lia.
  destruct (Z.ltb_spec n 12).
  - rewrite (Z.testbit_neg_r (Z.ones 4) (n - 12)) by lia.
    rewrite (Z.testbit_neg_r (Z.land _ _) (n - 12)) by lia.
    apply andb_false_r.
  - rewrite Z.land_spec, Z.shiftr_spec by lia.
    by replace (n - 12 + 12) with n by lia.
Qed.

Lemma land_0FFF op : Z.land op 0x0FFF = op mod 4096.
Proof. change 0x0FFF with (Z.ones 12). by rewrite Z.land_ones by lia. Qed.

Lemma land_00FF op : Z.land op 0x00FF = op mod 256.
Proof. change 0x00FF with (Z.ones 8). by rewrite Z.land_ones by lia. Qed.

Lemma field_X op : Z.shiftr (Z.land op 0x0F00) 8 = (op / 256) mod 16.
Proof.
  change 0x0F00 with (Z.shiftl (Z.ones 4) 8).
  change 256 with (2 ^ 8). change 16 with (2 ^ 4).
  rewrite <- Z.land_ones, <- Z.shiftr_div_pow2 by lia.
  apply Z.bits_inj'. intros n Hn.
  rewrite Z.shiftr_spec, !Z.land_spec, Z.shiftl_spec, Z.shiftr_spec by lia.
  by replace (n + 8 - 8) with n by lia.
Qed.

Lemma field_Y op : Z.shiftr (Z.land op 0x00F0) 4 = (op / 16) mod 16.
Proof.
  change 0x00F0 with (Z.shiftl (Z.ones 4) 4).
  change 16 with (2 ^ 4).
  rewrite <- Z.land_ones, <- Z.shiftr_div_pow2 by lia.
  apply Z.bits_inj'. intros n Hn.
  rewrite Z.shiftr_spec, !Z.land_spec, Z.shiftl_spec, Z.shiftr_spec by lia.
  by replace (n + 4 - 4) with n by lia.
Qed.

Lemma family_cases op :
  Z.land op 0xF000 ∈
    [0x0000; 0x1000; 0x2000; 0x3000; 0x4000; 0x5000; 0x6000; 0x7000;
     0x8000; 0x9000; 0xA000; 0xB000; 0xC000; 0xD000; 0xE000; 0xF000].
Proof.
  rewrite land_F000.
  pose proof (Z.mod_pos_bound (op / 4096) 16 ltac:(lia)) as Hk.
  set (k := (op / 4096) mod 16) in *.
  assert (k = 0 ∨ k = 1 ∨ k = 2 ∨ k = 3 ∨ k = 4 ∨ k = 5 ∨ k = 6 ∨ k = 7 ∨
          k = 8 ∨ k = 9 ∨ k = 10 ∨ k = 11 ∨ k = 12 ∨ k = 13 ∨ k = 14 ∨
          k = 15) as Hcases by lia.
  repeat (destruct Hcases as [-> | Hcases]; [repeat constructor |]).
  rewrite Hcases. repeat constructor.
Qed.

Lemma X_nibble op : 0 <= wrap8 (Z.shiftr (Z.land op 0x0F00) 8) < 16.
Proof.
  rewrite field_X.
  pose proof (Z.mod_pos_bound (op / 256) 16 ltac:(lia)).
  rewrite wrap8_id; [done | unfold is_u8; lia].
Qed.

Lemma Y_nibble op : 0 <= wrap8 (Z.shiftr (Z.land op 0x00F0) 4) < 16.
Proof.
  rewrite field_Y.
  pose proof (Z.mod_pos_bound (op / 16) 16 ltac:(lia)).
  rewrite wrap8_id; [done | unfold is_u8; lia].
Qed.

Lemma NNN_range op : 0 <= Z.land op 0x0FFF < 4096.
Proof. rewrite land_0FFF. apply Z.mod_pos_bound. lia. Qed.

Lemma NNN_wrap op : wrap16 (Z.land op 0x0FFF) = Z.land op 0x0FFF.
Proof. apply wrap16_id. pose proof (NNN_range op). unfold is_u16. lia. Qed.

End Fields.

(** ** Every operation yields a value of the class again *)

Create HintDb chip8 discriminated.

Section WellFormed.
Implicit Types s : Chip8.

Lemma wf_Chip8_new : wf Chip8_new.
Proof. apply wf_check. by vm_compute. Qed.

Lemma wf_initialize s : wf (initialize s).
Proof. apply wf_Chip8_new. Qed.

Lemma wf_set_pc s x : wf s → is_u16 x → wf (set_pc x s).
Proof. unfold wf. simpl. tauto. Qed.

Lemma wf_set_opcode s x : wf s → is_u16 x → wf (set_opcode x s).
Proof. unfold wf. simpl. tauto. Qed.

Lemma wf_set_I s x : wf s → is_u16 x → wf (set_I x s).
Proof. unfold wf. simpl. tauto. Qed.

Lemma wf_set_sp s x : wf s → is_u8 x → wf (set_sp x s).
Proof. unfold wf. simpl. tauto. Qed.

Lemma wf_set_delayTimer s x : wf s → is_u8 x → wf (set_delayTimer x s).
Proof. unfold wf. simpl. tauto. Qed.

Lemma wf_set_soundTimer s x : wf s → is_u8 x → wf (set_soundTimer x s).
Proof. unfold wf. simpl. tauto. Qed.

Lemma wf_set_drawFlag s x : wf s → wf (set_drawFlag x s).
Proof. unfold wf. simpl. tauto. Qed.

Lemma wf_set_display_blank s : wf s → wf (set_display blank_display s).
Proof.
  unfold wf. simpl. intros H.
  assert (Z.of_nat (length blank_display) = DISPLAY_WIDTH * DISPLAY_HEIGHT)
    by (by vm_compute).
  assert (Forall is_u8 blank_display)
    by (apply Forall_replicate; unfold is_u8; lia).
  tauto.
Qed.

Lemma wf_set_stack s i x :
  wf s → is_u16 x → wf (set_stack (<[i := x]> (stack s)) s).
Proof.
  unfold wf. simpl. intros H Hx.
  assert (Forall is_u16 (<[i := x]> (stack s)))
    by (apply Forall_insert; tauto).
  rewrite length_insert. tauto.
Qed.

Lemma wf_set_V s i x : wf s → is_u8 x → wf (set_V (<[i := x]> (V s)) s).
Proof.
  unfold wf. simpl. intros H Hx.
  assert (Forall is_u8 (<[i := x]> (V s))) by (apply Forall_insert; tauto).
  rewrite length_insert. tauto.
Qed.

Lemma wf_set_keys s i x : wf s → wf (set_keys (<[i := x]> (keys s)) s).
Proof. unfold wf. simpl. rewrite length_insert. tauto. Qed.

Lemma wf_set_memory_read_into s addr bytes :
  wf s → wf (set_memory (read_into (memory s) addr bytes) s).
Proof.
  unfold wf. simpl. intros H.
  pose proof (read_into_u8 bytes (memory s) addr).
  rewrite read_into_length. tauto.
Qed.

Lemma wf_pc s : wf s → is_u16 (pc s).
Proof. unfold wf. tauto. Qed.

Lemma wf_memory_length s : wf s → Z.of_nat (length (memory s)) = 4096.
Proof. unfold wf, MEMORY_SIZE. tauto. Qed.

Lemma wf_stack_length s : wf s → Z.of_nat (length (stack s)) = 16.
Proof. unfold wf, STACK_SIZE. tauto. Qed.

Lemma wf_V_length s : wf s → Z.of_nat (length (V s)) = 16.
Proof. unfold wf, REGISTER_COUNT. tauto. Qed.

Lemma wf_sp s : wf s → is_u8 (sp s).
Proof. unfold wf. tauto. Qed.

Lemma wf_timers s : wf s → is_u8 (delayTimer s) ∧ is_u8 (soundTimer s).
Proof. unfold wf. tauto. Qed.

End WellFormed.

#[global] Hint Resolve wf_set_pc wf_set_opcode wf_set_I wf_set_sp
  wf_set_delayTimer wf_set_soundTimer wf_set_drawFlag wf_set_display_blank
  wf_set_stack wf_set_V wf_set_keys wf_set_memory_read_into
  wrap8_u8 wrap16_u16 wf_pc : chip8.

Lemma assign_Done_inv {A} oob (arr : list A) i v l :
  assign oob arr i v = Done l →
  0 <= i < Z.of_nat (length arr) ∧ l = <[Z.to_nat i := v]> arr.
Proof.
  unfold assign.
  destruct (Z.leb_spec 0 i), (Z.ltb_spec i (Z.of_nat (length arr))); simpl;
    try done.
  intros [= <-]. split; [lia | done].
Qed.

Lemma executeOpcode_wf s s' out :
  wf s → executeOpcode s = Done (s', out) → wf s'.
Proof.
  intros Hwf H. unfold executeOpcode in H.
  repeat case_match; outcome_inv;
    repeat match goal with
      | H : assign _ _ _ _ = Done _ |- _ => apply assign_Done_inv in H as [? ->]
      end;
    simplify_eq; eauto 10 with chip8.
Qed.

Lemma fetch_u16 s op : fetch s = Done op → is_u16 op.
Proof. unfold fetch. intros H. outcome_inv. subst. apply wrap16_u16. Qed.

Lemma emulateCycle_wf s s' out :
  wf s → emulateCycle s = Done (s', out) → wf s'.
Proof.
  intros Hwf H. unfold emulateCycle in H. outcome_inv.
  eapply executeOpcode_wf; [|done].
  apply wf_set_opcode; [done | by eapply fetch_u16].
Qed.

Lemma updateTimers_wf s : wf s → wf (updateTimers s).
Proof.
  intros Hwf. unfold updateTimers. repeat case_match; eauto with chip8.
Qed.

Lemma setKey_wf key pressed s : wf s → wf (setKey key pressed s).
Proof. intros Hwf. unfold setKey. case_match; eauto with chip8. Qed.

Lemma loadROM_wf file s : wf s → wf (loadROM file s).1.2.
Proof.
  intros Hwf. unfold loadROM. repeat case_match; simpl; eauto with chip8.
Qed.

Lemma run_wf n : ∀ s s' out, wf s → run n s = Done (s', out) → wf s'.
Proof.
  induction n as [|n IH]; intros s s' out Hwf H; simpl in H.
  - apply ret_Done_inv in H. by simplify_eq.
  - apply bind_Done_inv in H as ([s1 out1] & Hstep & H).
    apply bind_Done_inv in H as ([s2 out2] & Hrest & H).
    apply ret_Done_inv in H. simplify_eq.
    eauto using emulateCycle_wf.
Qed.

(** * Timers *)

Section Timers.
Implicit Types s : Chip8.

Lemma set_delayTimer_same s : set_delayTimer (delayTimer s) s = s.
Proof. by destruct s. Qed.

Lemma set_soundTimer_same s : set_soundTimer (soundTimer s) s = s.
Proof. by destruct s. Qed.

(** One countdown step of an 8-bit timer. *)
Lemma countdown_u8 d :
  is_u8 d → (if d >? 0 then wrap8 (d - 1) else d) = Z.max 0 (d - 1).
Proof.
  unfold is_u8. intros Hd. destruct (Z.gtb_spec d 0).
  - rewrite wrap8_id by (unfold is_u8; lia). lia.
  - lia.
Qed.

Lemma updateTimers_delayTimer s :
  is_u8 (delayTimer s) →
  delayTimer (updateTimers s) = Z.max 0 (delayTimer s - 1).
Proof.
  intros Hd. rewrite <- countdown_u8 by done. unfold updateTimers.
  destruct (delayTimer s >? 0), (soundTimer _ >? 0); reflexivity.
Qed.

Lemma ticks_delayTimer (k : nat) s :
  is_u8 (delayTimer s) →
  delayTimer (Nat.iter k updateTimers s) = Z.max 0 (delayTimer s - Z.of_nat k).
Proof.
  intros Hd. induction k as [|k IH].
  - simpl. unfold is_u8 in Hd. lia.
  - rewrite Nat.iter_succ, updateTimers_delayTimer, IH; [lia|].
    rewrite IH. unfold is_u8 in *. lia.
Qed.

End Timers.

(** C9. One call of [updateTimers] lowers the delay timer by one when it is
    positive and leaves it at 0 otherwise, does the same for the sound timer
    independently, and changes nothing else; hence after [k] calls the delay
    timer holds [max 0 (d - k)], and 60 calls from 30 leave it at exactly 0
    without ever passing below 0 on the way. *)
Theorem updateTimers_spec s :
  wf s →
  updateTimers s =
    set_soundTimer (if soundTimer s >? 0 then soundTimer s - 1 else 0)
      (set_delayTimer (if delayTimer s >? 0 then delayTimer s - 1 else 0) s)
  ∧ (∀ k : nat, delayTimer (Nat.iter k updateTimers s)
                = Z.max 0 (delayTimer s - Z.of_nat k))
  ∧ (delayTimer s = 30 →
     delayTimer (Nat.iter 60 updateTimers s) = 0 ∧
     ∀ k : nat, (k ≤ 60)%nat → 0 <= delayTimer (Nat.iter k updateTimers s)).
Proof.
  intros Hwf. destruct (wf_timers s Hwf) as [Hd Hs]. split; [|split].
  - unfold updateTimers.
    destruct (Z.gtb_spec (delayTimer s) 0) as [Hpos|Hzero];
      [rewrite (wrap8_id (delayTimer s - 1)) by (unfold is_u8 in *; lia)|];
      destruct s as [mem regs ireg pcv disp flag d t stk spv ks opc];
      simpl in *;
      (destruct (Z.gtb_spec t 0) as [Hpos'|Hzero'];
       [rewrite (wrap8_id (t - 1)) by (unfold is_u8 in *; lia)|]);
      unfold set_soundTimer, set_delayTimer, is_u8 in *; simpl;
      f_equal; lia.
  - intros k. by apply ticks_delayTimer.
  - intros H30. split.
    + rewrite ticks_delayTimer by done. lia.
    + intros k _. rewrite ticks_delayTimer by done. lia.
Qed.

Lemma updateTimers_spec_witness :
  delayTimer (Nat.iter 60 updateTimers (set_delayTimer 30 Chip8_new)) = 0.
Proof.
  apply (updateTimers_spec (set_delayTimer 30 Chip8_new)).
  - apply wf_check. vm_compute. reflexivity.
  - reflexivity.
Defined.

(** * Loader *)

(** C5. A byte sequence handed to [loadROM] is rejected exactly when it is
    longer than 3584 bytes, and then the error is printed and the state
    (all of memory included) stays as it was; otherwise the flag is [true],
    nothing is printed, only [memory] changes, byte [i] of the program sits
    at address [0x200 + i], and every address below 0x200 or past the
    program keeps its value.  3584 bytes load, 3585 bytes do not. *)
Theorem loadROM_spec (bytes : list byte) (s : Chip8) :
  wf s →
  let ok := (loadROM (Some bytes) s).1.1 in
  let s' := (loadROM (Some bytes) s).1.2 in
  let err := (loadROM (Some bytes) s).2 in
  (ok = false ↔ (length bytes > 3584)%nat) ∧
  (ok = false →
     s' = s ∧ err = [RomTooLarge (Z.of_nat (length bytes))]) ∧
  (ok = true →
     err = [] ∧ s' = set_memory (memory s') s ∧
     length (memory s') = length (memory s) ∧
     (∀ (i : nat) b, bytes !! i = Some b →
        memory s' !! (512 + i)%nat = Some (byte_val b)) ∧
     (∀ a : nat, (a < 512 ∨ 512 + length bytes ≤ a)%nat →
        memory s' !! a = memory s !! a)) ∧
  (length bytes = 3584%nat → ok = true) ∧
  (length bytes = 3585%nat → ok = false).
Proof.
  intros Hwf. pose proof (wf_memory_length s Hwf) as Hlen.
  unfold loadROM, MEMORY_SIZE, ROM_START_ADDRESS.
  destruct (Z.gtb_spec (Z.of_nat (length bytes)) (4096 - 512)) as [Hbig|Hfit];
    cbn [fst snd].
  - repeat split; try done; intros; lia.
  - change (Z.to_nat 512) with 512%nat.
    split; [split; [done | lia] |]. split; [done |].
    split; [| split; [done | lia]].
    intros _. split; [done |]. split; [done |].
    cbn [memory set_memory].
    split; [apply read_into_length |]. split.
    + intros i b Hb. apply read_into_inside; [lia | done].
    + intros a Ha. by apply read_into_outside.
Qed.

Lemma loadROM_spec_witness :
  memory (boot prog_set_add) !! 512%nat = Some 0x60 ∧
  memory (boot prog_set_add) !! 513%nat = Some 0x05 ∧
  memory (boot prog_set_add) !! 516%nat = memory Chip8_new !! 516%nat.
Proof.
  pose proof (loadROM_spec prog_set_add Chip8_new
                (wf_check Chip8_new eq_refl)) as (_ & _ & Hok & _ & _).
  destruct (Hok eq_refl) as (_ & _ & _ & Hin & Hout).
  split; [exact (Hin 0%nat x60 eq_refl) |].
  split; [exact (Hin 1%nat x05 eq_refl) |].
  apply (Hout 516%nat). right. simpl. lia.
Defined.

(** * The fetch *)

Section Fetch.
Implicit Types s : Chip8.

Lemma emulateCycle_fetch s op :
  fetch s = Done op → emulateCycle s = executeOpcode (set_opcode op s).
Proof. intros H. unfold emulateCycle. by rewrite H. Qed.

Lemma fetch_in_bounds s :
  wf s → pc s <= 4094 →
  ∃ hi lo,
    memory s !! Z.to_nat (pc s) = Some hi ∧
    memory s !! Z.to_nat (pc s + 1) = Some lo ∧
    fetch s = Done (wrap16 (Z.lor (Z.shiftl hi 8) lo)).
Proof.
  intros Hwf Hpc. pose proof (wf_memory_length s Hwf) as Hlen.
  pose proof (wf_pc s Hwf) as Hu. unfold is_u16 in Hu.
  destruct (index_in_bounds MemoryOutOfBounds (memory s) (pc s))
    as (hi & Hhi & Hmhi); [lia|].
  destruct (index_in_bounds MemoryOutOfBounds (memory s) (pc s + 1))
    as (lo & Hlo & Hmlo); [lia|].
  exists hi, lo. unfold fetch. by rewrite Hhi, Hlo.
Qed.

Lemma fetch_Done_pc s op :
  wf s → fetch s = Done op → 0 <= pc s <= 4094.
Proof.
  intros Hwf H. pose proof (wf_memory_length s Hwf) as Hlen.
  unfold fetch in H. outcome_inv. lia.
Qed.

Lemma fetch_last_byte s :
  wf s → pc s = 4095 → fetch s = Undefined (MemoryOutOfBounds 4096).
Proof.
  intros Hwf Hpc. pose proof (wf_memory_length s Hwf) as Hlen.
  destruct (index_in_bounds MemoryOutOfBounds (memory s) (pc s))
    as (hi & Hhi & _); [lia|].
  unfold fetch. rewrite Hhi, Hpc. simpl.
  by rewrite index_out_of_bounds by lia.
Qed.

End Fetch.

Ltac decode Hfam :=
  unfold executeOpcode; cbn [opcode set_opcode pc sp stack V I];
  rewrite Hfam; cbn [Z.eqb Pos.eqb].


(** * When a cycle has a defined result *)

Section DefinedResult.
Implicit Types s : Chip8.

Lemma register_read s op :
  wf s → ∃ v, index RegisterOutOfBounds (V s)
                (wrap8 (Z.shiftr (Z.land op 0x0F00) 8)) = Done v.
Proof.
  intros Hwf. pose proof (wf_V_length s Hwf). pose proof (X_nibble op).
  destruct (index_in_bounds RegisterOutOfBounds (V s)
              (wrap8 (Z.shiftr (Z.land op 0x0F00) 8))) as (v & Hv & _); [lia|].
  by exists v.
Qed.

Lemma register_read_Y s op :
  wf s → ∃ v, index RegisterOutOfBounds (V s)
                (wrap8 (Z.shiftr (Z.land op 0x00F0) 4)) = Done v.
Proof.
  intros Hwf. pose proof (wf_V_length s Hwf). pose proof (Y_nibble op).
  destruct (index_in_bounds RegisterOutOfBounds (V s)
              (wrap8 (Z.shiftr (Z.land op 0x00F0) 4))) as (v & Hv & _); [lia|].
  by exists v.
Qed.

Lemma register_write s op v :
  wf s → assign RegisterOutOfBounds (V s)
           (wrap8 (Z.shiftr (Z.land op 0x0F00) 8)) v
         = Done (<[Z.to_nat (wrap8 (Z.shiftr (Z.land op 0x0F00) 8)) := v]> (V s)).
Proof.
  intros Hwf. pose proof (wf_V_length s Hwf). pose proof (X_nibble op).
  apply assign_in_bounds. lia.
Qed.

(** Register accesses never leave the array; a cycle whose fetch is in
    bounds can only fail in a call on a full stack or a return on an empty
    one. *)
Lemma emulateCycle_defined s op :
  wf s → fetch s = Done op →
  (Z.land op 0xF000 = 0x2000 → sp s < 16) →
  (is_return op = true → 1 <= sp s <= 16) →
  ∃ s' out, emulateCycle s = Done (s', out).
Proof.
  intros Hwf Hf Hcall Hret.
  pose proof (wf_sp s Hwf) as Hsp. unfold is_u8 in Hsp.
  pose proof (wf_stack_length s Hwf) as Hlen.
  destruct (register_read s op Hwf) as [vx Hvx].
  destruct (register_read_Y s op Hwf) as [vy Hvy].
  rewrite (emulateCycle_fetch _ _ Hf).
  pose proof (family_cases op) as Hfam.
  rewrite !elem_of_cons, elem_of_nil in Hfam.
  unfold is_return in Hret.
  repeat (destruct Hfam as [Hfam | Hfam]); try done; decode Hfam;
    rewrite ?Hvx, ?Hvy, ?register_write by done;
    cbn [mbind outcome_bind]; rewrite ?register_write by done;
    try (by eexists _, _).
  - rewrite Hfam in Hret. cbn [Z.eqb andb] in Hret.
    destruct (wrap8 (Z.land op 0x00FF) =? 0xE0); [by eexists _, _|].
    destruct (wrap8 (Z.land op 0x00FF) =? 0xEE); [|by eexists _, _].
    specialize (Hret eq_refl).
    rewrite wrap8_id by (unfold is_u8; lia).
    destruct (index_in_bounds StackOutOfBounds (stack s) (sp s - 1))
      as (ra & -> & _); [lia|]. by eexists _, _.
  - rewrite assign_in_bounds by (specialize (Hcall Hfam); lia).
    by eexists _, _.
Qed.

End DefinedResult.

(** * Call and return *)

Section CallReturn.
Implicit Types s : Chip8.

Lemma call_step s op :
  wf s → fetch s = Done op → Z.land op 0xF000 = 0x2000 → sp s < 16 →
  emulateCycle s =
    Done (set_pc (Z.land op 0x0FFF)
            (set_sp (sp s + 1)
               (set_stack (<[Z.to_nat (sp s) := pc s]> (stack s))
                  (set_opcode op s))), []).
Proof.
  intros Hwf Hf Hfam Hsp.
  rewrite (emulateCycle_fetch _ _ Hf). decode Hfam.
  pose proof (wf_sp s Hwf) as Hu. pose proof (wf_stack_length s Hwf) as Hlen.
  unfold is_u8 in Hu.
  rewrite assign_in_bounds by lia.
  by rewrite NNN_wrap, wrap8_id by (unfold is_u8; lia).
Qed.

Lemma call_on_full_stack s op :
  wf s → fetch s = Done op → Z.land op 0xF000 = 0x2000 → 16 <= sp s →
  emulateCycle s = Undefined (StackOutOfBounds (sp s)).
Proof.
  intros Hwf Hf Hfam Hsp.
  rewrite (emulateCycle_fetch _ _ Hf). decode Hfam.
  pose proof (wf_stack_length s Hwf) as Hlen.
  by rewrite assign_out_of_bounds by lia.
Qed.

Lemma return_step s op ra :
  wf s → fetch s = Done op →
  Z.land op 0xF000 = 0x0000 → wrap8 (Z.land op 0x00FF) = 0xEE →
  1 <= sp s <= 16 → stack s !! Z.to_nat (sp s - 1) = Some ra →
  emulateCycle s =
    Done (set_pc (wrap16 (ra + 2)) (set_sp (sp s - 1) (set_opcode op s)), []).
Proof.
  intros Hwf Hf Hfam HNN Hsp Hra.
  rewrite (emulateCycle_fetch _ _ Hf). decode Hfam. rewrite HNN.
  cbn [Z.eqb Pos.eqb].
  pose proof (wf_stack_length s Hwf) as Hlen.
  rewrite (wrap8_id (sp s - 1)) by (unfold is_u8; lia).
  destruct (index_in_bounds StackOutOfBounds (stack s) (sp s - 1))
    as (v & Hv & Hlk); [lia|].
  rewrite Hv. by simplify_eq.
Qed.

Lemma return_on_empty_stack s op :
  wf s → fetch s = Done op →
  Z.land op 0xF000 = 0x0000 → wrap8 (Z.land op 0x00FF) = 0xEE →
  sp s = 0 →
  emulateCycle s = Undefined (StackOutOfBounds 255).
Proof.
  intros Hwf Hf Hfam HNN Hsp.
  rewrite (emulateCycle_fetch _ _ Hf). decode Hfam. rewrite HNN.
  cbn [Z.eqb Pos.eqb]. rewrite Hsp.
  pose proof (wf_stack_length s Hwf) as Hlen.
  change (wrap8 (0 - 1)) with 255.
  by rewrite index_out_of_bounds by lia.
Qed.

End CallReturn.

(** C2 (as amended). For every machine state whose stack pointer is below
    16, executing 2NNN stores PC itself, the address of the call
    instruction, in [stack[sp]] (the 2 is added later, by 00EE), leaves the
    other stack entries alone, increments the stack pointer after storing
    and sets PC to NNN; nothing is printed. *)
Theorem call_pushes_pc s op :
  wf s → fetch s = Done op → Z.land op 0xF000 = 0x2000 → sp s < 16 →
  ∃ s',
    emulateCycle s = Done (s', []) ∧
    s' = set_pc (Z.land op 0x0FFF)
           (set_sp (sp s + 1)
              (set_stack (<[Z.to_nat (sp s) := pc s]> (stack s))
                 (set_opcode op s))) ∧
    stack s' !! Z.to_nat (sp s) = Some (pc s) ∧
    (∀ i : nat, i ≠ Z.to_nat (sp s) → stack s' !! i = stack s !! i) ∧
    sp s' = sp s + 1 ∧
    pc s' = Z.land op 0x0FFF.
Proof.
  intros Hwf Hf Hfam Hsp. eexists. split; [by apply call_step|].
  split; [done|]. cbn [stack sp pc set_pc set_sp set_stack].
  pose proof (wf_sp s Hwf) as Hu. pose proof (wf_stack_length s Hwf) as Hlen.
  unfold is_u8 in Hu. repeat split.
  - apply list_lookup_insert_eq. lia.
  - intros i Hi. by apply list_lookup_insert_ne.
Qed.

Lemma call_pushes_pc_witness :
  ∃ s', emulateCycle (boot prog_call) = Done (s', []) ∧
        stack s' !! 0%nat = Some 0x200 ∧ sp s' = 1 ∧ pc s' = 0x210.
Proof.
  destruct (call_pushes_pc (boot prog_call) 0x2210) as (s' & H1 & _ & H2 & _ & H3 & H4).
  - apply wf_check. vm_compute. reflexivity.
  - vm_compute. reflexivity.
  - reflexivity.
  - vm_compute. reflexivity.
  - exists s'. split; [exact H1|]. split; [exact H2|]. split; [exact H3 | exact H4].
Defined.

(** The entry written by a call at 0x200 is 0x200, not 0x202; and with 16
    entries on the stack the store goes to [stack[16]], outside the array. *)
Lemma call_stores_pc_not_pc_plus_2 :
  (pc (boot prog_call) = 0x200 ∧
   fetch (boot prog_call) = Done 0x2210 ∧
   ∃ s', emulateCycle (boot prog_call) = Done (s', []) ∧
         stack s' !! 0%nat = Some 0x200 ∧
         stack s' !! 0%nat ≠ Some (pc (boot prog_call) + 2)) ∧
  (∃ s16 out,
      run 16 (boot prog_recursion) = Done (s16, out) ∧
      sp s16 = 16 ∧ fetch s16 = Done 0x2200 ∧
      emulateCycle s16 = Undefined (StackOutOfBounds 16)).
Proof.
  split.
  - split; [done|]. split; [by vm_compute|].
    eexists. split; [by vm_compute|]. split; [by vm_compute|]. by vm_compute.
  - destruct (run 16 (boot prog_recursion)) as [[s16 out]|f] eqn:E;
      [|by vm_compute in E].
    exists s16, out. split; [done|].
    vm_compute in E. injection E as <- <-. repeat split; by vm_compute.
Qed.

(** C3. For every call address [A = pc s] holding a 2NNN instruction, with
    at most 15 entries on the stack, the call completes and moves PC to NNN;
    and whenever a 00EE is later executed at the called address in a state
    that still has the stack pointer and the stack entry the call left,
    the return completes with PC equal to [A + 2], the address of the
    instruction after the call, and the stack pointer back at its old
    value. *)
Theorem call_then_return s op :
  wf s → fetch s = Done op → Z.land op 0xF000 = 0x2000 → sp s <= 15 →
  ∃ s1,
    emulateCycle s = Done (s1, []) ∧ pc s1 = Z.land op 0x0FFF ∧
    ∀ s2,
      wf s2 → pc s2 = pc s1 → fetch s2 = Done 0x00EE →
      sp s2 = sp s1 →
      stack s2 !! Z.to_nat (sp s) = stack s1 !! Z.to_nat (sp s) →
      ∃ s3, emulateCycle s2 = Done (s3, []) ∧ pc s3 = pc s + 2 ∧ sp s3 = sp s.
Proof.
  intros Hwf Hf Hfam Hsp.
  pose proof (wf_sp s Hwf) as Hu. unfold is_u8 in Hu.
  pose proof (wf_stack_length s Hwf) as Hlen.
  eexists. split; [apply call_step; [done | done | done | lia]|].
  split; [reflexivity|]. cbn [stack sp pc set_pc set_sp set_stack].
  intros s2 Hwf2 _ Hf2 Hsp2 Hframe.
  rewrite list_lookup_insert_eq in Hframe by lia.
  pose proof (fetch_Done_pc s op Hwf Hf) as Hpc.
  eexists. split.
  - apply (return_step s2 0x00EE (pc s)); try done.
    + lia.
    + rewrite Hsp2. by replace (sp s + 1 - 1) with (sp s) by lia.
  - cbn [pc sp set_pc set_sp]. split; [|lia].
    apply wrap16_id. unfold is_u16. lia.
Qed.

Lemma call_then_return_witness :
  ∃ s1 s3,
    emulateCycle (boot prog_call_return) = Done (s1, []) ∧
    emulateCycle s1 = Done (s3, []) ∧
    pc s3 = 0x202.
Proof.
  destruct (call_then_return (boot prog_call_return) 0x2210)
    as (s1 & Hcall & Hpc1 & Hret).
  - apply wf_check. vm_compute. reflexivity.
  - vm_compute. reflexivity.
  - reflexivity.
  - vm_compute. discriminate.
  - destruct (Hret s1) as (s3 & Hstep & Hpc3 & _).
    + vm_compute in Hcall. injection Hcall as <-. apply wf_check. vm_compute. reflexivity.
    + reflexivity.
    + vm_compute in Hcall. injection Hcall as <-. vm_compute. reflexivity.
    + reflexivity.
    + reflexivity.
    + exists s1, s3. split; [exact Hcall|]. split; [exact Hstep | exact Hpc3].
Defined.

(** * Return with an empty stack *)

(** C6. The code at its failing input: right after construction and load,
    with the stack pointer at 0 and 00EE as the first instruction, the
    decrement wraps the 8-bit stack pointer to 255 and the read of
    [stack[255]] leaves the 16-entry array; no error is reported and the
    cycle has no defined result. *)
Theorem return_on_empty_stack_is_undefined :
  reachable (boot prog_return) ∧
  sp (boot prog_return) = 0 ∧
  fetch (boot prog_return) = Done 0x00EE ∧
  wrap8 (sp (boot prog_return) - 1) = 255 ∧
  emulateCycle (boot prog_return) = Undefined (StackOutOfBounds 255).
Proof.
  split; [apply (reach_loadROM _ Chip8_new), reach_new|].
  split; [done|]. split; [by vm_compute|]. split; [done|].
  apply (return_on_empty_stack _ 0x00EE);
    [apply wf_check; by vm_compute | by vm_compute | done | done | done].
Qed.

(** * Instructions left as placeholders *)

(** Every word of family 8 only prints the placeholder line and advances
    PC: no register changes. *)
Lemma arithmetic_family_is_placeholder s op :
  wf s → fetch s = Done op → Z.land op 0xF000 = 0x8000 →
  emulateCycle s = Done (set_pc (pc s + 2) (set_opcode op s), [TodoArithmetic]).
Proof.
  intros Hwf Hf Hfam. pose proof (fetch_Done_pc s op Hwf Hf).
  rewrite (emulateCycle_fetch _ _ Hf). decode Hfam.
  by rewrite wrap16_id by (unfold is_u16; lia).
Qed.

(** C1. The code at its failing input: with V1 = 200 and V2 = 100 the word
    8124 leaves V1 at 200 and VF at 0, where the sum truncated to 8 bits is
    44 and the carry is 1. *)
Theorem add_with_carry_not_performed :
  ∃ s0 s1,
    run 2 (boot prog_add_carry) = Done (s0, []) ∧
    fetch s0 = Done 0x8124 ∧
    V s0 !! 1%nat = Some 200 ∧ V s0 !! 2%nat = Some 100 ∧
    emulateCycle s0 = Done (s1, [TodoArithmetic]) ∧
    V s1 = V s0 ∧
    V s1 !! 1%nat = Some 200 ∧ V s1 !! 15%nat = Some 0 ∧
    wrap8 (200 + 100) = 44.
Proof.
  destruct (run 2 (boot prog_add_carry)) as [[s0 out]|f] eqn:E;
    [|by vm_compute in E].
  vm_compute in E. injection E as <- <-.
  eexists _, _. split; [reflexivity|]. split; [by vm_compute|].
  split; [by vm_compute|]. split; [by vm_compute|].
  split; [by vm_compute|]. repeat split; by vm_compute.
Qed.

(** Families B to F share the default branch. *)
Lemma unimplemented_families s op :
  wf s → fetch s = Done op →
  Z.land op 0xF000 ∈ [0xB000; 0xC000; 0xD000; 0xE000; 0xF000] →
  emulateCycle s = Done (set_pc (pc s + 2) (set_opcode op s), [NotImplemented op]).
Proof.
  intros Hwf Hf Hfam. pose proof (fetch_Done_pc s op Hwf Hf).
  rewrite (emulateCycle_fetch _ _ Hf).
  rewrite !elem_of_cons, elem_of_nil in Hfam.
  destruct Hfam as [Hfam|[Hfam|[Hfam|[Hfam|[Hfam|[]]]]]]; decode Hfam;
    by rewrite wrap16_id by (unfold is_u16; lia).
Qed.

(** C7. The code at its failing input: V0..V2 hold 1, 2, 3; after A220,
    F255, clearing V0..V2 and F265 the registers hold 0, 0, 0 and memory at
    0x220 was never written, because F255 and F265 only print the
    placeholder line. *)
Theorem register_round_trip_not_performed :
  ∃ s3 s9,
    run 3 (boot prog_roundtrip) = Done (s3, []) ∧
    take 3 (V s3) = [1; 2; 3] ∧
    run 9 (boot prog_roundtrip)
      = Done (s9, [NotImplemented 0xF255; NotImplemented 0xF265]) ∧
    I s9 = 0x220 ∧
    take 3 (V s9) = [0; 0; 0] ∧
    take 3 (drop 0x220 (memory s9)) = [0; 0; 0].
Proof.
  destruct (run 3 (boot prog_roundtrip)) as [[s3 out3]|f] eqn:E3;
    [|by vm_compute in E3].
  destruct (run 9 (boot prog_roundtrip)) as [[s9 out9]|f] eqn:E9;
    [|by vm_compute in E9].
  vm_compute in E3. injection E3 as <- <-.
  vm_compute in E9. injection E9 as <- <-.
  eexists _, _. repeat split; by vm_compute.
Qed.

(** * Bounds of the instruction fetch *)

(** C10. In every machine state with PC at most 4094 the fetch reads
    [memory[PC]] and [memory[PC + 1]], both inside the 4096-byte array, and
    yields the big-endian word; but the state reached by executing the jump
    1FFF has PC = 0xFFF, and there the fetch reads [memory[4096]], outside
    the array. *)
Theorem fetch_bounds :
  (∀ s, wf s → pc s <= 4094 →
     0 <= pc s ∧ pc s + 1 < Z.of_nat (length (memory s)) ∧
     ∃ hi lo,
       memory s !! Z.to_nat (pc s) = Some hi ∧
       memory s !! Z.to_nat (pc s + 1) = Some lo ∧
       fetch s = Done (wrap16 (Z.lor (Z.shiftl hi 8) lo))) ∧
  (∃ s1,
     reachable (boot prog_jump_FFF) ∧
     fetch (boot prog_jump_FFF) = Done 0x1FFF ∧
     emulateCycle (boot prog_jump_FFF) = Done (s1, []) ∧
     reachable s1 ∧
     pc s1 = 0xFFF ∧
     Z.of_nat (length (memory s1)) = 4096 ∧
     fetch s1 = Undefined (MemoryOutOfBounds 4096) ∧
     emulateCycle s1 = Undefined (MemoryOutOfBounds 4096)).
Proof.
  split.
  - intros s Hwf Hpc. pose proof (wf_memory_length s Hwf) as Hlen.
    pose proof (wf_pc s Hwf) as Hu. unfold is_u16 in Hu.
    split; [lia|]. split; [lia|]. by apply fetch_in_bounds.
  - assert (reachable (boot prog_jump_FFF)) as Hreach
      by apply (reach_loadROM _ Chip8_new), reach_new.
    destruct (emulateCycle (boot prog_jump_FFF)) as [[s1 out]|f] eqn:E;
      [|by vm_compute in E].
    assert (reachable s1) as Hreach1 by (by eapply reach_emulateCycle).
    vm_compute in E. injection E as <- <-.
    eexists. split; [done|]. split; [by vm_compute|]. split; [reflexivity|].
    split; [exact Hreach1|]. repeat split; by vm_compute.
Qed.

Lemma fetch_bounds_witness :
  ∃ hi lo,
    memory (boot prog_set_add) !! 512%nat = Some hi ∧
    memory (boot prog_set_add) !! 513%nat = Some lo ∧
    fetch (boot prog_set_add) = Done (wrap16 (Z.lor (Z.shiftl hi 8) lo)).
Proof.
  apply (proj1 fetch_bounds (boot prog_set_add)).
  - apply wf_check. vm_compute. reflexivity.
  - vm_compute. discriminate.
Defined.

(** * Words outside the instruction table *)

Section UnknownWords.
Implicit Types (s : Chip8) (op : Z).

Lemma family_of_first_nibble op :
  is_u16 op → Z.land op 0xF000 = op / 4096 * 4096 ∧ 0 <= op / 4096 < 16.
Proof.
  unfold is_u16. intros Hop.
  assert (0 <= op / 4096 < 16) as Hk
    by (split; [apply Z.div_pos | apply Z.div_lt_upper_bound]; lia).
  by rewrite land_F000, (Z.mod_small _ 16).
Qed.

Lemma low_byte_wrap op : wrap8 (Z.land op 0x00FF) = Z.land op 0x00FF.
Proof.
  apply wrap8_id. rewrite land_00FF. unfold is_u8.
  apply Z.mod_pos_bound. lia.
Qed.

End UnknownWords.

(** C8 (as amended). For every fetched word that matches no pattern of the
    instruction table and is not one of the words the decoder executes all
    the same (families 5 and 9 with a non-zero last nibble, family 0 with
    low byte E0 or EE), the cycle completes, prints exactly one diagnostic
    naming the word as unknown or not implemented, advances PC by exactly
    2, and leaves registers, I, memory, stack, stack pointer, timers, keys,
    framebuffer and draw flag as they were (only the transient current
    instruction field holds the fetched word). *)
Theorem unknown_word_reported s op :
  wf s → fetch s = Done op →
  spec_known_pattern op = false → decoded_loosely op = false →
  ∃ d,
    emulateCycle s = Done (set_pc (pc s + 2) (set_opcode op s), [d]) ∧
    (d = UnknownOpcode op ∨ d = TodoArithmetic ∨ d = NotImplemented op).
Proof.
  intros Hwf Hf Hunknown Hstrict.
  pose proof (fetch_Done_pc s op Hwf Hf) as Hpc.
  destruct (family_of_first_nibble op (fetch_u16 s op Hf)) as [Hfam Hk].
  rewrite (emulateCycle_fetch _ _ Hf).
  unfold decoded_loosely in Hstrict. rewrite Hunknown in Hstrict.
  unfold spec_known_pattern in Hunknown.
  assert (wrap16 (pc s + 2) = pc s + 2) as Hnext
    by (apply wrap16_id; unfold is_u16; lia).
  set (k := op / 4096) in *.
  assert (k = 0 ∨ k = 1 ∨ k = 2 ∨ k = 3 ∨ k = 4 ∨ k = 5 ∨ k = 6 ∨ k = 7 ∨
          k = 8 ∨ k = 9 ∨ k = 10 ∨ k = 11 ∨ k = 12 ∨ k = 13 ∨ k = 14 ∨
          k = 15) as Hcases by lia.
  clearbody k.
  repeat (destruct Hcases as [-> | Hcases]); try subst k;
    match type of Hfam with
    | _ = ?rhs => let v := eval vm_compute in rhs in change rhs with v in Hfam
    end;
    cbn [Z.eqb Pos.eqb Z.leb Z.compare Pos.compare Pos.compare_cont
         andb orb negb] in Hunknown;
    try discriminate Hunknown;
    rewrite Hfam in Hstrict;
    cbn [Z.eqb Pos.eqb andb orb negb] in Hstrict;
    try discriminate Hstrict;
    decode Hfam; rewrite ?Hnext.
  - rewrite low_byte_wrap.
    apply orb_false_iff in Hstrict as [-> ->]. eauto.
  - eauto.
  - eauto.
  - eauto.
Qed.

Lemma unknown_word_reported_witness :
  ∃ d,
    emulateCycle Chip8_new
      = Done (set_pc (pc Chip8_new + 2) (set_opcode 0 Chip8_new), [d]) ∧
    (d = UnknownOpcode 0 ∨ d = TodoArithmetic ∨ d = NotImplemented 0).
Proof.
  apply (unknown_word_reported Chip8_new 0).
  - apply wf_check. vm_compute. reflexivity.
  - vm_compute. reflexivity.
  - vm_compute. reflexivity.
  - vm_compute. reflexivity.
Defined.

(** The word 5121 is in no row of the table (5XY0 needs a last nibble of
    0), yet it is executed as a skip: V1 = V2, so PC advances by 4 and
    nothing is printed.  The word 01E0 is in no row either, yet it clears
    the screen and raises the draw flag, again without a diagnostic. *)
Lemma loosely_decoded_words_not_reported :
  spec_known_pattern 0x5121 = false ∧
  fetch (boot prog_5121) = Done 0x5121 ∧
  pc (boot prog_5121) = 0x200 ∧
  emulateCycle (boot prog_5121)
    = Done (set_pc 0x204 (set_opcode 0x5121 (boot prog_5121)), []) ∧
  spec_known_pattern 0x01E0 = false ∧
  fetch (clearDrawFlag (boot prog_01E0)) = Done 0x01E0 ∧
  drawFlag (clearDrawFlag (boot prog_01E0)) = false ∧
  emulateCycle (clearDrawFlag (boot prog_01E0))
    = Done (set_pc 0x202
              (set_drawFlag true
                 (set_opcode 0x01E0 (clearDrawFlag (boot prog_01E0)))), []).
Proof. repeat split; by vm_compute. Qed.

(** * The program counter *)

Section ControlFlow.
Implicit Types s : Chip8.

(** How one instruction moves PC and the stack: an ordinary instruction
    steps over itself or skips, a jump goes to NNN, a call pushes PC, a
    return pops. *)
Lemma executeOpcode_control s s' out :
  executeOpcode s = Done (s', out) →
  (stack s' = stack s ∧ sp s' = sp s ∧
   (pc s' = wrap16 (pc s + 2) ∨ pc s' = wrap16 (pc s + 4)))
  ∨ (Z.land (opcode s) 0xF000 = 0x1000 ∧
     stack s' = stack s ∧ sp s' = sp s ∧
     pc s' = Z.land (opcode s) 0x0FFF)
  ∨ (Z.land (opcode s) 0xF000 = 0x2000 ∧
     0 <= sp s < Z.of_nat (length (stack s)) ∧
     stack s' = <[Z.to_nat (sp s) := pc s]> (stack s) ∧
     sp s' = wrap8 (sp s + 1) ∧
     pc s' = Z.land (opcode s) 0x0FFF)
  ∨ (is_return (opcode s) = true ∧
     ∃ ra, index StackOutOfBounds (stack s) (wrap8 (sp s - 1)) = Done ra ∧
           stack s' = stack s ∧ sp s' = wrap8 (sp s - 1) ∧
           pc s' = wrap16 (ra + 2)).
Proof.
  intros H. unfold executeOpcode in H.
  repeat case_match;
    repeat match goal with
      | H : (_ =? _) = true |- _ => apply Z.eqb_eq in H
      end.
  all: try (left; outcome_inv;
            repeat match goal with
              | H : assign _ _ _ _ = Done _ |- _ =>
                  apply assign_Done_inv in H as [? ->]
              end;
            simplify_eq;
            cbn [stack sp pc set_pc set_V set_I set_drawFlag set_display];
            repeat case_match; by eauto).
  - (* return *)
    right; right; right. unfold is_return.
    apply bind_Done_inv in H as (ra & Hra & H). apply ret_Done_inv in H.
    simplify_eq. split.
    + apply andb_true_iff. by rewrite !Z.eqb_eq.
    + exists ra. by cbn.
  - (* jump *)
    right; left. apply ret_Done_inv in H. simplify_eq.
    cbn. by rewrite NNN_wrap.
  - (* call *)
    right; right; left. apply bind_Done_inv in H as (stk & Hstk & H).
    apply ret_Done_inv in H. apply assign_Done_inv in Hstk as [? ->].
    simplify_eq. cbn. by rewrite NNN_wrap.
Qed.
End ControlFlow.

Section Invariant.
Implicit Types s : Chip8.

Lemma control_invariant_new : control_invariant Chip8_new.
Proof.
  split; [apply wf_Chip8_new|]. split; [by vm_compute|].
  split; [by vm_compute|]. intros i ra Hi. change (sp Chip8_new) with 0 in Hi.
  lia.
Qed.

Lemma control_invariant_same s s' :
  control_invariant s → wf s' →
  pc s' = pc s → sp s' = sp s → stack s' = stack s →
  control_invariant s'.
Proof.
  intros (_ & Hpc & Hsp & Hstk) Hwf' Epc Esp Estk.
  unfold control_invariant. by rewrite Epc, Esp, Estk.
Qed.

Lemma control_invariant_step s s' out :
  control_invariant s → proper_branch s →
  emulateCycle s = Done (s', out) → control_invariant s'.
Proof.
  intros (Hwf & Hpc & Hsp & Hstk) Hproper Hstep.
  pose proof (emulateCycle_wf s s' out Hwf Hstep) as Hwf'.
  pose proof (wf_sp s Hwf) as Hsp8. unfold is_u8 in Hsp8.
  pose proof (wf_stack_length s Hwf) as Hlen.
  unfold emulateCycle in Hstep.
  apply bind_Done_inv in Hstep as (op & Hf & Hexec).
  pose proof (fetch_Done_pc s op Hwf Hf) as Hfetch.
  specialize (Hproper op Hf). unfold branch_target_ok in Hproper.
  assert (aligned_in 0x200 0xFFE (pc s)) as Hpc'
    by (destruct Hpc; split; [lia | done]).
  apply executeOpcode_control in Hexec.
  cbn [opcode set_opcode pc sp stack] in Hexec.
  split; [done|].
  destruct Hexec as [(Estk & Esp & Epc)
                    | [(Hfam & Estk & Esp & Epc)
                    | [(Hfam & Hin & Estk & Esp & Epc)
                    | (Hret & ra & Hra & Estk & Esp & Epc)]]].
  - rewrite Estk, Esp. split; [|done].
    destruct Hpc' as [? He].
    destruct Epc as [-> | ->]; rewrite wrap16_id by (unfold is_u16; lia);
      (split; [lia | by rewrite Z.even_add, He]).
  - rewrite Estk, Esp, Epc. split; [|done].
    rewrite Hfam in Hproper. cbn [Z.eqb Pos.eqb orb] in Hproper.
    apply andb_true_iff in Hproper as [Hproper Hhi].
    apply andb_true_iff in Hproper as [Heven Hlo].
    split; [lia | done].
  - rewrite Estk, Esp, Epc.
    rewrite Hfam in Hproper. cbn [Z.eqb Pos.eqb orb] in Hproper.
    apply andb_true_iff in Hproper as [Hproper Hhi].
    apply andb_true_iff in Hproper as [Heven Hlo].
    rewrite wrap8_id by (unfold is_u8; lia).
    split; [split; [lia | done]|]. split; [lia|].
    intros i ra Hi Hlk.
    destruct (decide (i = Z.to_nat (sp s))) as [-> | Hne].
    + rewrite list_lookup_insert_eq in Hlk by lia. by simplify_eq.
    + rewrite list_lookup_insert_ne in Hlk by done.
      apply (Hstk i); [lia | done].
  - apply index_Done_inv in Hra as [Hin Hlk].
    assert (1 <= sp s) as Hpos.
    { destruct (decide (sp s = 0)) as [E|]; [|lia].
      rewrite E in Hin. change (wrap8 (0 - 1)) with 255 in Hin. lia. }
    rewrite wrap8_id in * by (unfold is_u8; lia).
    rewrite Estk, Esp, Epc.
    destruct (Hstk (Z.to_nat (sp s - 1)) ra ltac:(lia) Hlk) as [Hr He].
    rewrite wrap16_id by (unfold is_u16; lia).
    split; [split; [lia | by rewrite Z.even_add, He]|]. split; [lia|].
    intros i ra' Hi. apply Hstk. lia.
Qed.

Lemma reachable_control_invariant s :
  reachable_without_stray_branch s → control_invariant s.
Proof.
  induction 1 as [ | s _ _ | s file _ IH | s s' out _ IH Hproper Hstep
                 | s _ IH | s key pressed _ IH _ | s _ IH ].
  - apply control_invariant_new.
  - apply control_invariant_new.
  - apply (control_invariant_same s); [done | | | | ].
    + apply loadROM_wf, IH.
    + unfold loadROM. by repeat case_match.
    + unfold loadROM. by repeat case_match.
    + unfold loadROM. by repeat case_match.
  - by eapply control_invariant_step.
  - apply (control_invariant_same s); [done | | | | ].
    + apply updateTimers_wf, IH.
    + unfold updateTimers. by repeat case_match.
    + unfold updateTimers. by repeat case_match.
    + unfold updateTimers. by repeat case_match.
  - apply (control_invariant_same s); [done | | | | ].
    + apply setKey_wf, IH.
    + unfold setKey. by case_match.
    + unfold setKey. by case_match.
    + unfold setKey. by case_match.
  - apply (control_invariant_same s); [done | | done | done | done].
    apply wf_set_drawFlag, IH.
Qed.

Lemma run_checked_reachable n : ∀ s s',
  reachable_without_stray_branch s → run_checked n s = Some s' →
  reachable_without_stray_branch s'.
Proof.
  induction n as [|n IH]; intros s s' Hreach Hrun; simpl in Hrun.
  - by simplify_eq.
  - destruct (fetch s) as [op|] eqn:Hf; [|done].
    destruct (branch_target_ok op) eqn:Hok; [|done].
    destruct (emulateCycle s) as [[s1 out]|] eqn:Hstep; [|done].
    apply (IH s1); [|done].
    apply (reach_emulateCycle _ s s1 out); [done | | done].
    intros op' Hf'. by replace op' with op by congruence.
Qed.

End Invariant.

Section NextPc.
Implicit Types (s : Chip8) (op : Z).

Lemma jump_or_call_not_return op :
  is_jump_or_call op = true → is_return op = false.
Proof.
  unfold is_jump_or_call, is_return. intros H.
  apply orb_true_iff in H as [H | H]; apply Z.eqb_eq in H; by rewrite H.
Qed.

(** Where one instruction leaves PC, by the kind of instruction. *)
Lemma executeOpcode_next_pc s s' out :
  executeOpcode s = Done (s', out) →
  (is_jump_or_call (opcode s) = true → pc s' = Z.land (opcode s) 0x0FFF) ∧
  (is_return (opcode s) = true →
   ∃ ra, index StackOutOfBounds (stack s) (wrap8 (sp s - 1)) = Done ra ∧
         pc s' = wrap16 (ra + 2)) ∧
  (is_jump_or_call (opcode s) = false → is_return (opcode s) = false →
   pc s' = wrap16 (pc s + 2) ∨ pc s' = wrap16 (pc s + 4)).
Proof.
  intros H. pose proof (executeOpcode_control s s' out H) as Hctl.
  unfold is_jump_or_call, is_return.
  destruct Hctl as [(_ & _ & Epc)
                   | [(Hfam & _ & _ & Epc)
                   | [(Hfam & _ & _ & _ & Epc)
                   | (Hret & ra & Hra & _ & _ & Epc)]]].
  - (* pc + 2 or pc + 4: the word is neither a jump, a call nor a return *)
    unfold executeOpcode in H.
    destruct (Z.land (opcode s) 0xF000 =? 0x0000) eqn:E0.
    + apply Z.eqb_eq in E0. rewrite E0. cbn [Z.eqb Pos.eqb orb andb].
      destruct (wrap8 (Z.land (opcode s) 0x00FF) =? 0xE0) eqn:EE0;
        [apply Z.eqb_eq in EE0; rewrite EE0; cbn [Z.eqb Pos.eqb];
         repeat split; (done || eauto)|].
      destruct (wrap8 (Z.land (opcode s) 0x00FF) =? 0xEE) eqn:EEE;
        [|repeat split; (done || eauto)].
      apply bind_Done_inv in H as (ra & Hra & H). apply ret_Done_inv in H.
      simplify_eq. split; [done|]. split; [|done].
      intros _. exists ra. by cbn.
    + destruct (Z.land (opcode s) 0xF000 =? 0x1000) eqn:E1.
      { apply ret_Done_inv in H. simplify_eq. cbn. rewrite NNN_wrap.
        repeat split; (done || eauto). }
      destruct (Z.land (opcode s) 0xF000 =? 0x2000) eqn:E2.
      { apply bind_Done_inv in H as (stk & Hstk & H). apply ret_Done_inv in H.
        simplify_eq. cbn. rewrite NNN_wrap. repeat split; (done || eauto). }
      cbn [orb andb]. repeat split; (done || eauto).
  - rewrite Hfam. cbn [Z.eqb Pos.eqb orb andb]. repeat split; (done || eauto).
  - rewrite Hfam. cbn [Z.eqb Pos.eqb orb andb]. repeat split; (done || eauto).
  - unfold is_return in Hret. apply andb_true_iff in Hret as [Hfam HNN].
    rewrite HNN. apply Z.eqb_eq in Hfam. rewrite Hfam.
    cbn [Z.eqb Pos.eqb orb andb]. split; [done|]. split; [|done]. eauto.
Qed.

End NextPc.

Lemma even_step a b :
  Z.even a = true → a <= b → Z.even b = true → a ≠ b → a + 2 <= b.
Proof.
  intros Ha Hle Hb Hne. apply Z.even_spec in Ha as [k ->].
  apply Z.even_spec in Hb as [j ->]. lia.
Qed.




(** * Further properties of the fetch and the loader *)

Section Words.
Implicit Types (s : Chip8) (hi lo : Z).

Lemma word_of_bytes hi lo :
  is_u8 hi → is_u8 lo → wrap16 (Z.lor (Z.shiftl hi 8) lo) = 256 * hi + lo.
Proof.
  unfold is_u8. intros Hhi Hlo.
  assert (Z.land (Z.shiftl hi 8) lo = 0) as Hdisjoint.
  { apply Z.bits_inj'. intros n Hn. rewrite Z.land_spec, Z.bits_0.
    destruct (Z.ltb_spec n 8).
    - by rewrite Z.shiftl_spec_low by lia.
    - rewrite <- (Z.mod_small lo (2 ^ 8)) by lia.
      rewrite Z.mod_pow2_bits_high by lia. apply andb_false_r. }
  rewrite <- Z.add_nocarry_lor by done.
  rewrite Z.shiftl_mul_pow2 by lia. change (2 ^ 8) with 256.
  rewrite (Z.mul_comm hi 256). apply wrap16_id. unfold is_u16. lia.
Qed.

Lemma memory_byte s (a : nat) b : wf s → memory s !! a = Some b → is_u8 b.
Proof.
  intros (_ & Hall & _) Hb. rewrite Forall_lookup in Hall. by eapply Hall.
Qed.

Lemma fetch_word s hi lo :
  wf s →
  memory s !! Z.to_nat (pc s) = Some hi →
  memory s !! Z.to_nat (pc s + 1) = Some lo →
  fetch s = Done (256 * hi + lo).
Proof.
  intros Hwf Hhi Hlo.
  pose proof (wf_pc s Hwf) as Hpc. unfold is_u16 in Hpc.
  pose proof (lookup_lt_Some _ _ _ Hlo) as Hlt.
  destruct (index_in_bounds MemoryOutOfBounds (memory s) (pc s))
    as (hi' & Ehi & Hhi'); [lia|].
  destruct (index_in_bounds MemoryOutOfBounds (memory s) (pc s + 1))
    as (lo' & Elo & Hlo'); [lia|].
  unfold fetch. rewrite Ehi, Elo. cbn [mbind outcome_bind mret outcome_ret].
  simplify_eq. f_equal. apply word_of_bytes; by eapply memory_byte.
Qed.

Lemma fetch_ext s1 s2 :
  memory s1 = memory s2 → pc s1 = pc s2 → fetch s1 = fetch s2.
Proof. unfold fetch. by intros -> ->. Qed.

End Words.

(** X2. After a successful load, the fetch at [0x200 + 2k] yields the
    [k]-th word of the program, first byte high. *)
Theorem loaded_word_is_fetched (bytes : list byte) (k : nat) b0 b1 s :
  wf s → (length bytes ≤ 3584)%nat →
  bytes !! (2 * k)%nat = Some b0 → bytes !! (2 * k + 1)%nat = Some b1 →
  pc s = 0x200 + 2 * Z.of_nat k →
  fetch (loadROM (Some bytes) s).1.2 = Done (256 * byte_val b0 + byte_val b1).
Proof.
  intros Hwf Hlen Hb0 Hb1 Hpc.
  pose proof (wf_memory_length s Hwf) as Hmem.
  pose proof (lookup_lt_Some _ _ _ Hb1) as Hk.
  assert (loadROM (Some bytes) s
          = (true, set_memory (read_into (memory s) 512 bytes) s, [])) as E.
  { unfold loadROM, MEMORY_SIZE, ROM_START_ADDRESS.
    destruct (Z.gtb_spec (Z.of_nat (length bytes)) (4096 - 512)); [lia|done]. }
  rewrite E. cbn [fst snd].
  apply fetch_word.
  - by apply wf_set_memory_read_into.
  - cbn [memory pc set_memory]. rewrite Hpc.
    replace (Z.to_nat (512 + 2 * Z.of_nat k)) with (512 + 2 * k)%nat by lia.
    apply read_into_inside; [lia | done].
  - cbn [memory pc set_memory]. rewrite Hpc.
    replace (Z.to_nat (512 + 2 * Z.of_nat k + 1)) with (512 + (2 * k + 1))%nat
      by lia.
    apply read_into_inside; [lia | done].
Qed.

Lemma loaded_word_is_fetched_witness :
  fetch (loadROM (Some prog_set_add) (set_pc 0x202 Chip8_new)).1.2
    = Done (256 * byte_val x70 + byte_val x0a).
Proof.
  apply (loaded_word_is_fetched prog_set_add 1 x70 x0a).
  - apply wf_check. vm_compute. reflexivity.
  - vm_compute. lia.
  - reflexivity.
  - reflexivity.
  - reflexivity.
Defined.

(** X3. [loadROM] clears nothing: after loading a second program over a
    first, each address from 0x200 on holds the second program's byte where
    it has one, else the first program's byte where that has one (the stale
    tail of a longer first program), else what memory held before. *)
Theorem loadROM_over_loadROM (first second : list byte) s (i : nat) :
  wf s → (length first ≤ 3584)%nat → (length second ≤ 3584)%nat →
  memory (loadROM (Some second) (loadROM (Some first) s).1.2).1.2 !! (512 + i)%nat
  = match second !! i, first !! i with
    | Some b, _ => Some (byte_val b)
    | None, Some b => Some (byte_val b)
    | None, None => memory s !! (512 + i)%nat
    end.
Proof.
  intros Hwf H1 H2. pose proof (wf_memory_length s Hwf) as Hmem.
  assert (∀ bytes t, (length bytes ≤ 3584)%nat →
            (loadROM (Some bytes) t).1.2
            = set_memory (read_into (memory t) 512 bytes) t) as E.
  { intros bytes t Hlen. unfold loadROM, MEMORY_SIZE, ROM_START_ADDRESS.
    destruct (Z.gtb_spec (Z.of_nat (length bytes)) (4096 - 512)); [lia|done]. }
  rewrite !E by done. cbn [memory set_memory].
  destruct (second !! i) as [b|] eqn:Hs.
  - apply read_into_inside; [rewrite read_into_length; lia | done].
  - apply lookup_ge_None in Hs.
    rewrite read_into_outside by lia.
    destruct (first !! i) as [b|] eqn:Hf.
    + apply read_into_inside; [lia | done].
    + apply lookup_ge_None in Hf. apply read_into_outside. lia.
Qed.

Lemma loadROM_over_loadROM_witness :
  memory (loadROM (Some prog_call)
            (loadROM (Some prog_set_add) Chip8_new).1.2).1.2 !! (512 + 2)%nat
  = Some (byte_val x70).
Proof.
  apply (loadROM_over_loadROM prog_set_add prog_call Chip8_new 2).
  - apply wf_check. vm_compute. reflexivity.
  - vm_compute. lia.
  - vm_compute. lia.
Defined.

(** * What a cycle leaves alone *)

Section Frame.
Implicit Types s : Chip8.

Lemma executeOpcode_frame s s' out :
  executeOpcode s = Done (s', out) →
  memory s' = memory s ∧ keys s' = keys s ∧
  delayTimer s' = delayTimer s ∧ soundTimer s' = soundTimer s ∧
  opcode s' = opcode s ∧
  (display s' = display s ∧ drawFlag s' = drawFlag s
   ∨ display s' = blank_display ∧ drawFlag s' = true) ∧
  (I s' = I s ∨ I s' = Z.land (opcode s) 0x0FFF).
Proof.
  intros H. unfold executeOpcode in H.
  repeat case_match; outcome_inv;
    repeat match goal with
      | H : assign _ _ _ _ = Done _ |- _ => apply assign_Done_inv in H as [? ->]
      end;
    simplify_eq; cbn; rewrite ?NNN_wrap; repeat split; eauto.
Qed.

Lemma emulateCycle_frame_aux s s' out :
  emulateCycle s = Done (s', out) →
  memory s' = memory s ∧ keys s' = keys s ∧
  delayTimer s' = delayTimer s ∧ soundTimer s' = soundTimer s ∧
  fetch s = Done (opcode s') ∧
  (display s' = display s ∧ drawFlag s' = drawFlag s
   ∨ display s' = blank_display ∧ drawFlag s' = true) ∧
  (I s' = I s ∨ I s' = Z.land (opcode s') 0x0FFF).
Proof.
  unfold emulateCycle. intros H.
  apply bind_Done_inv in H as (op & Hf & H).
  apply executeOpcode_frame in H. cbn in H.
  destruct H as (? & ? & ? & ? & -> & ? & ?). by rewrite Hf.
Qed.

Lemma read_into_take bytes : ∀ mem (addr n : nat),
  (n ≤ addr)%nat → take n (read_into mem addr bytes) = take n mem.
Proof.
  induction bytes as [|b rest IH]; intros mem addr n Hn; simpl; [done|].
  rewrite IH by lia. apply take_insert_ge. lia.
Qed.

Lemma loadROM_frame file s :
  ∃ mem, (loadROM file s).1.2 = set_memory mem s ∧
         take 512 mem = take 512 (memory s).
Proof.
  unfold loadROM. destruct file as [bytes|]; [|exists (memory s); by destruct s].
  case_match; [exists (memory s); by destruct s|].
  eexists. split; [done|]. by apply read_into_take.
Qed.

Lemma updateTimers_frame s :
  ∃ d t, updateTimers s = set_soundTimer t (set_delayTimer d s) ∧
         (delayTimer s = 0 → d = 0) ∧ (soundTimer s = 0 → t = 0).
Proof.
  exists (if delayTimer s >? 0 then wrap8 (delayTimer s - 1) else delayTimer s),
         (if soundTimer s >? 0 then wrap8 (soundTimer s - 1) else soundTimer s).
  split; [|split].
  - unfold updateTimers. destruct s as [? ? ? ? ? ? d t ? ? ? ?]. cbn.
    destruct (d >? 0); cbn; by destruct (t >? 0).
  - by intros ->.
  - by intros ->.
Qed.

Lemma setKey_frame key pressed s :
  ∃ ks, setKey key pressed s = set_keys ks s.
Proof.
  unfold setKey. case_match; [by eexists|]. exists (keys s). by destruct s.
Qed.

End Frame.

(** X5. A completed cycle never writes memory, the key states or either
    timer; it changes the framebuffer only by clearing it, and then the draw
    flag is raised (a cycle never lowers the draw flag); it changes I only
    to the NNN of the instruction it executed. *)
Theorem emulateCycle_frame s s' out :
  emulateCycle s = Done (s', out) →
  memory s' = memory s ∧ keys s' = keys s ∧
  delayTimer s' = delayTimer s ∧ soundTimer s' = soundTimer s ∧
  (display s' = display s ∧ drawFlag s' = drawFlag s
   ∨ display s' = blank_display ∧ drawFlag s' = true) ∧
  (I s' = I s ∨ I s' = Z.land (opcode s') 0x0FFF).
Proof.
  intros H. apply emulateCycle_frame_aux in H.
  destruct H as (? & ? & ? & ? & _ & ? & ?). done.
Qed.

Lemma emulateCycle_frame_witness :
  memory (set_pc 0x202 (set_drawFlag true (set_opcode 0x00E0 (clearDrawFlag (boot [x00; xe0])))))
  = memory (clearDrawFlag (boot [x00; xe0])).
Proof.
  apply (emulateCycle_frame (clearDrawFlag (boot [x00; xe0])) _ []).
  vm_compute. reflexivity.
Defined.

Section ReachableStates.
Implicit Types s : Chip8.

Lemma getPixel_blank x y s : display s = blank_display → getPixel x y s = false.
Proof.
  intros E. unfold getPixel. rewrite E. case_match; [done|].
  destruct (blank_display !! _) as [p|] eqn:Hp; [|done].
  apply lookup_replicate in Hp as [-> _]. done.
Qed.

Lemma reachable_blank_silent s :
  reachable s →
  display s = blank_display ∧ delayTimer s = 0 ∧ soundTimer s = 0.
Proof.
  unfold reachable.
  induction 1 as [ | s _ _ | s file _ IH | s s' out _ IH _ Hstep
                 | s _ IH | s key pressed _ IH _ | s _ IH ].
  - done.
  - done.
  - destruct (loadROM_frame file s) as (mem & -> & _). done.
  - apply emulateCycle_frame_aux in Hstep
      as (_ & _ & -> & -> & _ & Hd & _).
    destruct IH as (IHd & ? & ?). split; [|done].
    destruct Hd as [[-> _] | [-> _]]; done.
  - destruct IH as (? & Hd & Ht).
    destruct (updateTimers_frame s) as (d & t & -> & Hd' & Ht'). cbn.
    by rewrite Hd', Ht'.
  - destruct (setKey_frame key pressed s) as (ks & ->). done.
  - done.
Qed.

End ReachableStates.

(** X4. In every reachable state the first 512 bytes of memory are the
    80 font bytes followed by zeros: neither a load nor any instruction
    writes below 0x200. *)
Theorem interpreter_area_never_written s :
  reachable s → take 512 (memory s) = fontset ++ replicate 432 0.
Proof.
  unfold reachable.
  induction 1 as [ | s _ _ | s file _ IH | s s' out _ IH _ Hstep
                 | s _ IH | s key pressed _ IH _ | s _ IH ].
  - vm_compute. reflexivity.
  - vm_compute. reflexivity.
  - destruct (loadROM_frame file s) as (mem & -> & Ht). cbn [memory set_memory].
    by rewrite Ht.
  - apply emulateCycle_frame_aux in Hstep as (-> & _). done.
  - destruct (updateTimers_frame s) as (d & t & -> & _). done.
  - destruct (setKey_frame key pressed s) as (ks & ->). done.
  - done.
Qed.

Lemma interpreter_area_never_written_witness :
  take 512 (memory (boot prog_roundtrip)) = fontset ++ replicate 432 0.
Proof.
  apply interpreter_area_never_written.
  apply (reach_loadROM _ Chip8_new (Some prog_roundtrip)), reach_new.
Defined.

(** X6. In every reachable state every pixel is off, both timers are 0
    and [shouldBeep] is false: no implemented instruction draws or sets a
    timer. *)
Theorem nothing_drawn_nothing_beeps s :
  reachable s →
  (∀ x y, getPixel x y s = false) ∧ shouldBeep s = false ∧
  delayTimer s = 0 ∧ soundTimer s = 0.
Proof.
  intros H. apply reachable_blank_silent in H as (Hd & ? & Ht).
  split; [intros x y; by apply getPixel_blank|].
  unfold shouldBeep. by rewrite Ht.
Qed.

Lemma nothing_drawn_nothing_beeps_witness :
  getPixel 3 4 (updateTimers (boot prog_set_add)) = false ∧
  shouldBeep (updateTimers (boot prog_set_add)) = false.
Proof.
  destruct (nothing_drawn_nothing_beeps (updateTimers (boot prog_set_add)))
    as (Hp & Hb & _).
  - apply reach_updateTimers.
    apply (reach_loadROM _ Chip8_new (Some prog_set_add)), reach_new.
  - split; [exact (Hp 3 4) | exact Hb].
Defined.

(** X7. In every reachable state the index register holds an address
    inside memory, [0 <= I <= 0xFFF]. *)
Theorem index_register_in_memory s :
  reachable s → 0 <= I s <= 0xFFF.
Proof.
  unfold reachable.
  induction 1 as [ | s _ _ | s file _ IH | s s' out _ IH _ Hstep
                 | s _ IH | s key pressed _ IH _ | s _ IH ].
  - done.
  - done.
  - destruct (loadROM_frame file s) as (mem & -> & _). done.
  - apply emulateCycle_frame_aux in Hstep as (_ & _ & _ & _ & _ & _ & HI).
    destruct HI as [-> | ->]; [done|].
    pose proof (NNN_range (opcode s')). lia.
  - destruct (updateTimers_frame s) as (d & t & -> & _). done.
  - destruct (setKey_frame key pressed s) as (ks & ->). done.
  - done.
Qed.

Lemma index_register_in_memory_witness :
  0 <= I (set_pc 0x202 (set_I 0x220 (set_opcode 0xA220 (boot [xa2; x20]))))
    <= 0xFFF.
Proof.
  apply index_register_in_memory.
  apply (reach_emulateCycle _ (boot [xa2; x20]) _ []).
  - apply (reach_loadROM _ Chip8_new (Some [xa2; x20])), reach_new.
  - exact Logic.I.
  - vm_compute. reflexivity.
Defined.

(** * The implemented instructions *)

Section Instructions.
Implicit Types (s : Chip8) (op : Z).

Lemma X_field op :
  wrap8 (Z.shiftr (Z.land op 0x0F00) 8) = (op / 256) mod 16.
Proof.
  rewrite field_X. apply wrap8_id. unfold is_u8.
  pose proof (Z.mod_pos_bound (op / 256) 16 ltac:(lia)). lia.
Qed.

Lemma Y_field op :
  wrap8 (Z.shiftr (Z.land op 0x00F0) 4) = (op / 16) mod 16.
Proof.
  rewrite field_Y. apply wrap8_id. unfold is_u8.
  pose proof (Z.mod_pos_bound (op / 16) 16 ltac:(lia)). lia.
Qed.

Lemma NN_field op : wrap8 (Z.land op 0x00FF) = op mod 256.
Proof.
  rewrite land_00FF. apply wrap8_id. unfold is_u8.
  apply Z.mod_pos_bound. lia.
Qed.

Lemma NNN_field op : wrap16 (Z.land op 0x0FFF) = op mod 4096.
Proof. by rewrite NNN_wrap, land_0FFF. Qed.

Lemma next_pc s op (k : Z) :
  wf s → fetch s = Done op → 0 <= k <= 4 → wrap16 (pc s + k) = pc s + k.
Proof.
  intros Hwf Hf Hk. pose proof (fetch_Done_pc s op Hwf Hf).
  apply wrap16_id. unfold is_u16. lia.
Qed.

Lemma register_X s op :
  wf s → ∃ vx, V s !! Z.to_nat ((op / 256) mod 16) = Some vx ∧
               index RegisterOutOfBounds (V s) ((op / 256) mod 16) = Done vx.
Proof.
  intros Hwf. pose proof (wf_V_length s Hwf).
  pose proof (Z.mod_pos_bound (op / 256) 16 ltac:(lia)).
  destruct (index_in_bounds RegisterOutOfBounds (V s) ((op / 256) mod 16))
    as (v & ? & ?); [lia|]. by exists v.
Qed.

Lemma register_Y s op :
  wf s → ∃ vy, V s !! Z.to_nat ((op / 16) mod 16) = Some vy ∧
               index RegisterOutOfBounds (V s) ((op / 16) mod 16) = Done vy.
Proof.
  intros Hwf. pose proof (wf_V_length s Hwf).
  pose proof (Z.mod_pos_bound (op / 16) 16 ltac:(lia)).
  destruct (index_in_bounds RegisterOutOfBounds (V s) ((op / 16) mod 16))
    as (v & ? & ?); [lia|]. by exists v.
Qed.

Lemma ld_step s op :
  wf s → fetch s = Done op → Z.land op 0xF000 = 0x6000 →
  emulateCycle s =
    Done (set_pc (pc s + 2)
            (set_V (<[Z.to_nat ((op / 256) mod 16) := op mod 256]> (V s))
               (set_opcode op s)), []).
Proof.
  intros Hwf Hf Hfam. pose proof (wf_V_length s Hwf).
  pose proof (Z.mod_pos_bound (op / 256) 16 ltac:(lia)).
  rewrite (emulateCycle_fetch _ _ Hf). decode Hfam.
  rewrite X_field, NN_field, (next_pc s op 2) by (done || lia).
  by rewrite assign_in_bounds by lia.
Qed.

Lemma add_step s op vx :
  wf s → fetch s = Done op → Z.land op 0xF000 = 0x7000 →
  V s !! Z.to_nat ((op / 256) mod 16) = Some vx →
  emulateCycle s =
    Done (set_pc (pc s + 2)
            (set_V (<[Z.to_nat ((op / 256) mod 16)
                      := (vx + op mod 256) mod 256]> (V s))
               (set_opcode op s)), []).
Proof.
  intros Hwf Hf Hfam Hvx. pose proof (wf_V_length s Hwf).
  pose proof (Z.mod_pos_bound (op / 256) 16 ltac:(lia)).
  destruct (register_X s op Hwf) as (vx' & Hvx' & Hidx).
  rewrite (emulateCycle_fetch _ _ Hf). decode Hfam.
  rewrite X_field, NN_field, (next_pc s op 2) by (done || lia).
  rewrite Hidx. cbn [mbind outcome_bind].
  rewrite assign_in_bounds by lia. by simplify_eq.
Qed.

End Instructions.

(** X8. 6XNN completes in every state whose fetch does: V[X] becomes NN,
    every other register keeps its value, PC advances by 2, nothing is
    printed and only V, PC and the current instruction change. *)
Theorem load_immediate s op :
  wf s → fetch s = Done op → Z.land op 0xF000 = 0x6000 →
  ∃ s',
    emulateCycle s = Done (s', []) ∧
    V s' !! Z.to_nat ((op / 256) mod 16) = Some (op mod 256) ∧
    (∀ i : nat, i ≠ Z.to_nat ((op / 256) mod 16) → V s' !! i = V s !! i) ∧
    pc s' = pc s + 2 ∧
    s' = set_pc (pc s') (set_V (V s') (set_opcode op s)).
Proof.
  intros Hwf Hf Hfam. pose proof (wf_V_length s Hwf).
  pose proof (Z.mod_pos_bound (op / 256) 16 ltac:(lia)).
  eexists. split; [by apply ld_step|]. cbn [V pc set_pc set_V].
  split; [apply list_lookup_insert_eq; lia|].
  split; [intros i Hi; by apply list_lookup_insert_ne|]. done.
Qed.

Lemma load_immediate_witness :
  ∃ s', emulateCycle (boot prog_set_add) = Done (s', []) ∧
        V s' !! 0%nat = Some 5 ∧ pc s' = 0x202.
Proof.
  destruct (load_immediate (boot prog_set_add) 0x6005)
    as (s' & H1 & H2 & _ & H3 & _).
  - apply wf_check. vm_compute. reflexivity.
  - vm_compute. reflexivity.
  - reflexivity.
  - exists s'. split; [exact H1|]. split; [exact H2 | exact H3].
Defined.

(** X9. 7XNN completes in every state whose fetch does: V[X] becomes
    (V[X] + NN) mod 256, every other register keeps its value (so VF is
    untouched unless X = F, when it is the register added to), and PC
    advances by 2. *)
Theorem add_immediate s op vx :
  wf s → fetch s = Done op → Z.land op 0xF000 = 0x7000 →
  V s !! Z.to_nat ((op / 256) mod 16) = Some vx →
  ∃ s',
    emulateCycle s = Done (s', []) ∧
    V s' !! Z.to_nat ((op / 256) mod 16) = Some ((vx + op mod 256) mod 256) ∧
    (∀ i : nat, i ≠ Z.to_nat ((op / 256) mod 16) → V s' !! i = V s !! i) ∧
    ((op / 256) mod 16 ≠ 15 → V s' !! 15%nat = V s !! 15%nat) ∧
    pc s' = pc s + 2 ∧
    s' = set_pc (pc s') (set_V (V s') (set_opcode op s)).
Proof.
  intros Hwf Hf Hfam Hvx. pose proof (wf_V_length s Hwf).
  pose proof (Z.mod_pos_bound (op / 256) 16 ltac:(lia)).
  eexists. split; [by apply add_step|]. cbn [V pc set_pc set_V].
  split; [apply list_lookup_insert_eq; lia|].
  split; [intros i Hi; by apply list_lookup_insert_ne|].
  split; [intros Hx; apply list_lookup_insert_ne; lia | done].
Qed.

Lemma add_immediate_witness :
  ∃ s', emulateCycle (set_V (<[0%nat := 250]> (V Chip8_new))
                        (boot [x70; x0a])) = Done (s', []) ∧
        V s' !! 0%nat = Some 4 ∧ V s' !! 15%nat = Some 0.
Proof.
  destruct (add_immediate (set_V (<[0%nat := 250]> (V Chip8_new))
                             (boot [x70; x0a])) 0x700A 250)
    as (s' & H1 & H2 & _ & H3 & _).
  - apply wf_check. vm_compute. reflexivity.
  - vm_compute. reflexivity.
  - reflexivity.
  - reflexivity.
  - exists s'. split; [exact H1|]. split; [exact H2|].
    rewrite H3; [reflexivity | vm_compute; discriminate].
Defined.

(** X10. A 6XNN followed at the next address by a 7XNN on the same
    register: two cycles leave V[X] = (NN1 + NN2) mod 256, the other
    registers unchanged and PC advanced by 4 (60 05, 70 0A gives V0 = 15
    and PC = 0x204). *)
Theorem load_then_add s op1 op2 :
  wf s →
  fetch s = Done op1 → Z.land op1 0xF000 = 0x6000 →
  fetch (set_pc (pc s + 2) s) = Done op2 → Z.land op2 0xF000 = 0x7000 →
  (op2 / 256) mod 16 = (op1 / 256) mod 16 →
  ∃ s',
    run 2 s = Done (s', []) ∧
    V s' !! Z.to_nat ((op1 / 256) mod 16)
      = Some ((op1 mod 256 + op2 mod 256) mod 256) ∧
    (∀ i : nat, i ≠ Z.to_nat ((op1 / 256) mod 16) → V s' !! i = V s !! i) ∧
    pc s' = pc s + 4.
Proof.
  intros Hwf Hf1 Hfam1 Hf2 Hfam2 HX. pose proof (wf_V_length s Hwf).
  pose proof (Z.mod_pos_bound (op1 / 256) 16 ltac:(lia)).
  pose proof (ld_step s op1 Hwf Hf1 Hfam1) as Hstep1.
  set (s1 := set_pc (pc s + 2) (set_V _ (set_opcode op1 s))) in Hstep1.
  assert (wf s1) as Hwf1 by (by eapply emulateCycle_wf).
  assert (fetch s1 = Done op2) as Hf2' by (by rewrite <- Hf2).
  assert (V s1 !! Z.to_nat ((op2 / 256) mod 16) = Some (op1 mod 256)) as Hvx.
  { rewrite HX. subst s1. cbn [V set_pc set_V].
    apply list_lookup_insert_eq. lia. }
  pose proof (add_step s1 op2 _ Hwf1 Hf2' Hfam2 Hvx) as Hstep2.
  eexists. split.
  - cbn [run]. rewrite Hstep1. cbn [mbind outcome_bind]. rewrite Hstep2.
    reflexivity.
  - rewrite HX. subst s1. cbn [V pc set_pc set_V set_opcode].
    split; [apply list_lookup_insert_eq; rewrite length_insert; lia|].
    split; [|lia].
    intros i Hi. by rewrite !list_lookup_insert_ne.
Qed.

Lemma load_then_add_witness :
  ∃ s', run 2 (boot prog_set_add) = Done (s', []) ∧
        V s' !! 0%nat = Some 15 ∧ pc s' = 0x204.
Proof.
  destruct (load_then_add (boot prog_set_add) 0x6005 0x700A)
    as (s' & H1 & H2 & _ & H3).
  - apply wf_check. vm_compute. reflexivity.
  - vm_compute. reflexivity.
  - reflexivity.
  - vm_compute. reflexivity.
  - reflexivity.
  - reflexivity.
  - exists s'. split; [exact H1|]. split; [exact H2 | exact H3].
Defined.

(** X11. 3XNN and 4XNN never fail once the fetch succeeded, and are
    complementary: 3XNN advances PC by 4 when V[X] = NN and by 2 otherwise,
    4XNN by 2 when V[X] = NN and by 4 otherwise; nothing else changes. *)
Theorem skip_on_immediate s op :
  wf s → fetch s = Done op →
  ∃ vx,
    V s !! Z.to_nat ((op / 256) mod 16) = Some vx ∧
    (Z.land op 0xF000 = 0x3000 →
     emulateCycle s =
       Done (set_pc (pc s + (if vx =? op mod 256 then 4 else 2))
               (set_opcode op s), [])) ∧
    (Z.land op 0xF000 = 0x4000 →
     emulateCycle s =
       Done (set_pc (pc s + (if vx =? op mod 256 then 2 else 4))
               (set_opcode op s), [])).
Proof.
  intros Hwf Hf. destruct (register_X s op Hwf) as (vx & Hvx & Hidx).
  exists vx. split; [done|].
  split; intros Hfam; rewrite (emulateCycle_fetch _ _ Hf); decode Hfam;
    rewrite X_field, NN_field, Hidx; cbn [mbind outcome_bind];
    destruct (vx =? op mod 256); cbn [negb];
    by rewrite (next_pc s op) by (done || lia).
Qed.

Lemma skip_on_immediate_witness :
  ∃ vx, V (boot [x30; x00]) !! 0%nat = Some vx ∧
        emulateCycle (boot [x30; x00])
        = Done (set_pc (0x200 + (if vx =? 0 then 4 else 2))
                  (set_opcode 0x3000 (boot [x30; x00])), []).
Proof.
  destruct (skip_on_immediate (boot [x30; x00]) 0x3000) as (vx & H1 & H2 & _).
  - apply wf_check. vm_compute. reflexivity.
  - vm_compute. reflexivity.
  - exists vx. split; [exact H1 | exact (H2 eq_refl)].
Defined.

(** X12. 5XYN and 9XYN never fail once the fetch succeeded, and are
    complementary: 5XYN advances PC by 4 when V[X] = V[Y] and by 2
    otherwise, 9XYN by 2 when V[X] = V[Y] and by 4 otherwise; nothing else
    changes. *)
Theorem skip_on_registers s op :
  wf s → fetch s = Done op →
  ∃ vx vy,
    V s !! Z.to_nat ((op / 256) mod 16) = Some vx ∧
    V s !! Z.to_nat ((op / 16) mod 16) = Some vy ∧
    (Z.land op 0xF000 = 0x5000 →
     emulateCycle s =
       Done (set_pc (pc s + (if vx =? vy then 4 else 2))
               (set_opcode op s), [])) ∧
    (Z.land op 0xF000 = 0x9000 →
     emulateCycle s =
       Done (set_pc (pc s + (if vx =? vy then 2 else 4))
               (set_opcode op s), [])).
Proof.
  intros Hwf Hf. destruct (register_X s op Hwf) as (vx & Hvx & Hidx).
  destruct (register_Y s op Hwf) as (vy & Hvy & Hidy).
  exists vx, vy. split; [done|]. split; [done|].
  split; intros Hfam; rewrite (emulateCycle_fetch _ _ Hf); decode Hfam;
    rewrite X_field, Y_field, Hidx; cbn [mbind outcome_bind];
    rewrite Hidy; cbn [mbind outcome_bind];
    destruct (vx =? vy); cbn [negb];
    by rewrite (next_pc s op) by (done || lia).
Qed.

Lemma skip_on_registers_witness :
  ∃ vx vy,
    V (boot [x91; x20]) !! 1%nat = Some vx ∧
    V (boot [x91; x20]) !! 2%nat = Some vy ∧
    emulateCycle (boot [x91; x20])
    = Done (set_pc (0x200 + (if vx =? vy then 2 else 4))
              (set_opcode 0x9120 (boot [x91; x20])), []).
Proof.
  destruct (skip_on_registers (boot [x91; x20]) 0x9120)
    as (vx & vy & H1 & H2 & _ & H3).
  - apply wf_check. vm_compute. reflexivity.
  - vm_compute. reflexivity.
  - exists vx, vy. split; [exact H1|]. split; [exact H2 | exact (H3 eq_refl)].
Defined.

(** X13. 1NNN sets PC to NNN, which is at most 0xFFF, and changes nothing
    else; a jump to its own address is a halt: after the first cycle every
    further cycle leaves the state as it is. *)
Theorem jump_and_halt_loop s op :
  fetch s = Done op → Z.land op 0xF000 = 0x1000 →
  emulateCycle s = Done (set_pc (op mod 4096) (set_opcode op s), []) ∧
  0 <= op mod 4096 <= 0xFFF ∧
  (op mod 4096 = pc s →
   ∀ n : nat, run (S n) s = Done (set_opcode op s, [])).
Proof.
  intros Hf Hfam.
  assert (emulateCycle s = Done (set_pc (op mod 4096) (set_opcode op s), []))
    as Hstep.
  { rewrite (emulateCycle_fetch _ _ Hf). decode Hfam. by rewrite NNN_field. }
  split; [done|].
  split; [pose proof (Z.mod_pos_bound op 4096 ltac:(lia)); lia|].
  intros Hself n. rewrite Hself in Hstep.
  assert (set_pc (pc s) (set_opcode op s) = set_opcode op s) as Hsame
    by (by destruct s).
  rewrite Hsame in Hstep.
  assert (emulateCycle (set_opcode op s) = Done (set_opcode op s, []))
    as Hstay.
  { unfold emulateCycle in *.
    rewrite (fetch_ext (set_opcode op s) s) by done.
    rewrite Hf in *. cbn [mbind outcome_bind] in *.
    by replace (set_opcode op (set_opcode op s)) with (set_opcode op s)
      by (by destruct s). }
  assert (∀ k : nat, run k (set_opcode op s) = Done (set_opcode op s, []))
    as Hloop.
  { induction k as [|k IH]; [done|].
    cbn [run]. rewrite Hstay. cbn [mbind outcome_bind]. by rewrite IH. }
  cbn [run]. rewrite Hstep. cbn [mbind outcome_bind]. by rewrite Hloop.
Qed.

Lemma jump_and_halt_loop_witness :
  run 1000 (boot [x12; x00]) = Done (set_opcode 0x1200 (boot [x12; x00]), []).
Proof.
  refine (proj2 (proj2 (jump_and_halt_loop (boot [x12; x00]) 0x1200 _ _)) _ 999%nat).
  - vm_compute. reflexivity.
  - reflexivity.
  - reflexivity.
Defined.

(** X14. 00E0 (any word of family 0 with low byte E0) completes, turns
    every pixel off, raises the draw flag and advances PC by 2. *)
Theorem clear_screen s op :
  wf s → fetch s = Done op →
  Z.land op 0xF000 = 0x0000 → op mod 256 = 0xE0 →
  ∃ s',
    emulateCycle s = Done (s', []) ∧
    s' = set_pc (pc s + 2)
           (set_drawFlag true (set_display blank_display (set_opcode op s))) ∧
    (∀ x y, getPixel x y s' = false) ∧
    shouldDraw s' = true.
Proof.
  intros Hwf Hf Hfam HNN. eexists. split.
  - rewrite (emulateCycle_fetch _ _ Hf). decode Hfam.
    rewrite NN_field, HNN. cbn [Z.eqb Pos.eqb].
    by rewrite (next_pc s op) by (done || lia).
  - split; [done|]. split; [|done].
    intros x y. unfold getPixel. cbn [display set_pc set_drawFlag set_display].
    case_match; [done|].
    destruct (blank_display !! _) as [p|] eqn:Hp; [|done].
    apply lookup_replicate in Hp as [-> _]. done.
Qed.

Lemma clear_screen_witness :
  ∃ s', emulateCycle (clearDrawFlag (boot [x00; xe0])) = Done (s', []) ∧
        getPixel 10 20 s' = false ∧ shouldDraw s' = true.
Proof.
  destruct (clear_screen (clearDrawFlag (boot [x00; xe0])) 0x00E0)
    as (s' & H1 & _ & H2 & H3).
  - apply wf_check. vm_compute. reflexivity.
  - vm_compute. reflexivity.
  - reflexivity.
  - reflexivity.
  - exists s'. split; [exact H1|]. split; [exact (H2 10 20) | exact H3].
Defined.

(** * Where a cycle has no defined result *)

Section Faults.
Implicit Types s : Chip8.

Lemma fetch_past_memory s :
  wf s → 4095 <= pc s →
  fetch s = Undefined (MemoryOutOfBounds (Z.max 4096 (pc s))).
Proof.
  intros Hwf Hpc. pose proof (wf_memory_length s Hwf) as Hlen.
  destruct (decide (pc s = 4095)) as [E|].
  - rewrite fetch_last_byte by done. by rewrite E.
  - unfold fetch. rewrite (index_out_of_bounds _ _ (pc s)) by lia.
    cbn [mbind outcome_bind]. f_equal. f_equal. lia.
Qed.

Lemma return_outside_stack s op :
  wf s → fetch s = Done op → is_return op = true →
  sp s = 0 ∨ 16 < sp s →
  emulateCycle s = Undefined (StackOutOfBounds (wrap8 (sp s - 1))).
Proof.
  intros Hwf Hf Hret Hsp. unfold is_return in Hret.
  apply andb_true_iff in Hret as [Hfam HNN].
  apply Z.eqb_eq in Hfam. apply Z.eqb_eq in HNN.
  pose proof (wf_sp s Hwf) as Hu. unfold is_u8 in Hu.
  pose proof (wf_stack_length s Hwf) as Hlen.
  rewrite (emulateCycle_fetch _ _ Hf). decode Hfam. rewrite HNN.
  cbn [Z.eqb Pos.eqb].
  rewrite index_out_of_bounds; [done|].
  destruct Hsp as [-> | Hsp]; [change (wrap8 (0 - 1)) with 255; lia|].
  rewrite wrap8_id by (unfold is_u8; lia). lia.
Qed.

End Faults.

(** X15. A cycle has no defined result in exactly three situations: the
    fetch reads past the end of memory (PC >= 4095), a call finds 16 or
    more entries on the stack and writes [stack[sp]], or a return finds the
    stack pointer at 0 or above 16 and reads [stack[(sp - 1) mod 256]].
    Register accesses never leave the register array. *)
Theorem emulateCycle_undefined_iff s f :
  wf s →
  emulateCycle s = Undefined f ↔
    (4095 <= pc s ∧ f = MemoryOutOfBounds (Z.max 4096 (pc s)))
    ∨ (∃ op, fetch s = Done op ∧ Z.land op 0xF000 = 0x2000 ∧
             16 <= sp s ∧ f = StackOutOfBounds (sp s))
    ∨ (∃ op, fetch s = Done op ∧ is_return op = true ∧
             (sp s = 0 ∨ 16 < sp s) ∧
             f = StackOutOfBounds (wrap8 (sp s - 1))).
Proof.
  intros Hwf. split.
  - intros Hund. destruct (decide (4095 <= pc s)) as [Hpc|Hpc].
    + left. split; [done|].
      pose proof (fetch_past_memory s Hwf Hpc) as Hf.
      unfold emulateCycle in Hund. rewrite Hf in Hund.
      cbn [mbind outcome_bind] in Hund. by simplify_eq.
    + right. destruct (fetch_in_bounds s Hwf ltac:(lia)) as (hi & lo & _ & _ & Hf).
      set (op := wrap16 _) in Hf.
      destruct (decide (Z.land op 0xF000 = 0x2000 ∧ 16 <= sp s)) as [[Hfam Hsp]|Hcall].
      { left. exists op. rewrite (call_on_full_stack s op) in Hund by done.
        by simplify_eq. }
      destruct (decide (is_return op = true ∧ (sp s = 0 ∨ 16 < sp s)))
        as [[Hret Hsp]|Hnret].
      { right. exists op. rewrite (return_outside_stack s op) in Hund by done.
        by simplify_eq. }
      destruct (emulateCycle_defined s op Hwf Hf) as (s' & out & Hdone).
      * intros Hfam. destruct (decide (sp s < 16)); [done|].
        exfalso. apply Hcall. split; [done | lia].
      * intros Hret. pose proof (wf_sp s Hwf) as Hu. unfold is_u8 in Hu.
        destruct (decide (1 <= sp s <= 16)); [done|].
        exfalso. apply Hnret. split; [done | lia].
      * by rewrite Hdone in Hund.
  - intros [[Hpc ->] | [(op & Hf & Hfam & Hsp & ->) | (op & Hf & Hret & Hsp & ->)]].
    + unfold emulateCycle. by rewrite fetch_past_memory by done.
    + by apply (call_on_full_stack s op).
    + by apply (return_outside_stack s op).
Qed.

Lemma emulateCycle_undefined_iff_witness :
  emulateCycle (set_pc 0x1000 Chip8_new)
  = Undefined (MemoryOutOfBounds (Z.max 4096 (pc (set_pc 0x1000 Chip8_new)))).
Proof.
  apply (emulateCycle_undefined_iff (set_pc 0x1000 Chip8_new)).
  - apply wf_check. vm_compute. reflexivity.
  - left. split; [vm_compute; discriminate | reflexivity].
Defined.



(** * Sound timer *)

Section SoundTimer.
Implicit Types s : Chip8.

Lemma updateTimers_soundTimer s :
  is_u8 (soundTimer s) →
  soundTimer (updateTimers s) = Z.max 0 (soundTimer s - 1).
Proof.
  intros Ht. rewrite <- countdown_u8 by done. unfold updateTimers.
  destruct (delayTimer s >? 0); cbn [soundTimer set_delayTimer];
    by destruct (soundTimer s >? 0).
Qed.

Lemma ticks_soundTimer (k : nat) s :
  is_u8 (soundTimer s) →
  soundTimer (Nat.iter k updateTimers s) = Z.max 0 (soundTimer s - Z.of_nat k).
Proof.
  intros Ht. induction k as [|k IH].
  - simpl. unfold is_u8 in Ht. lia.
  - rewrite Nat.iter_succ, updateTimers_soundTimer, IH; [lia|].
    rewrite IH. unfold is_u8 in *. lia.
Qed.

End SoundTimer.

(** X17. After [k] calls of [updateTimers] the sound timer holds
    [max 0 (t - k)], so [shouldBeep] is true exactly while [k < t]; after
    255 calls both timers are 0 whatever they were. *)
Theorem beep_lasts_soundTimer_ticks s (k : nat) :
  wf s →
  shouldBeep (Nat.iter k updateTimers s) = bool_decide (Z.of_nat k < soundTimer s) ∧
  soundTimer (Nat.iter k updateTimers s) = Z.max 0 (soundTimer s - Z.of_nat k) ∧
  ((255 ≤ k)%nat →
   delayTimer (Nat.iter k updateTimers s) = 0 ∧
   soundTimer (Nat.iter k updateTimers s) = 0).
Proof.
  intros Hwf. destruct (wf_timers s Hwf) as [Hd Ht].
  pose proof (ticks_soundTimer k s Ht) as Hk.
  split; [|split; [done|]].
  - unfold shouldBeep. rewrite Hk. unfold is_u8 in Ht.
    case_bool_decide; [apply Z.gtb_lt | rewrite Z.gtb_ltb; apply Z.ltb_ge]; lia.
  - intros Hlarge. rewrite Hk, ticks_delayTimer by done.
    unfold is_u8 in *. lia.
Qed.

Lemma beep_lasts_soundTimer_ticks_witness :
  shouldBeep (Nat.iter 2 updateTimers (set_soundTimer 3 Chip8_new))
  = bool_decide (Z.of_nat 2 < soundTimer (set_soundTimer 3 Chip8_new)).
Proof.
  apply (beep_lasts_soundTimer_ticks (set_soundTimer 3 Chip8_new) 2).
  apply wf_check. vm_compute. reflexivity.
Defined.

(** * Keys and pixels *)

(** X18. [setKey] with a key below 16 sets that key's flag and no other;
    with a key of 16 or more it changes nothing; it never touches anything
    but the key flags; the last write to a key wins, and writes to
    different keys commute. *)
Theorem setKey_spec key pressed s :
  wf s → is_u8 key →
  (key < 16 →
   keys (setKey key pressed s) !! Z.to_nat key = Some pressed ∧
   ∀ i : nat, i ≠ Z.to_nat key → keys (setKey key pressed s) !! i = keys s !! i) ∧
  (16 <= key → setKey key pressed s = s) ∧
  setKey key pressed s = set_keys (keys (setKey key pressed s)) s ∧
  (∀ other, setKey key pressed (setKey key other s) = setKey key pressed s) ∧
  (∀ key' pressed', is_u8 key' → key' ≠ key →
     setKey key pressed (setKey key' pressed' s)
     = setKey key' pressed' (setKey key pressed s)).
Proof.
  intros Hwf Hkey. unfold is_u8 in Hkey.
  assert (Z.of_nat (length (keys s)) = 16) as Hlen
    by (unfold wf, KEY_COUNT in Hwf; tauto).
  unfold setKey, KEY_COUNT. split; [|split; [|split; [|split]]].
  - intros Hlt. destruct (Z.ltb_spec key 16); [|lia]. cbn [keys set_keys].
    split; [apply list_lookup_insert_eq; lia|].
    intros i Hi. by apply list_lookup_insert_ne.
  - intros Hge. destruct (Z.ltb_spec key 16); [lia | done].
  - destruct (key <? 16); by destruct s.
  - intros other. destruct (key <? 16); [|done]. cbn [keys set_keys].
    unfold set_keys. cbn. by rewrite list_insert_insert_eq.
  - intros key' pressed' Hkey' Hne. unfold is_u8 in Hkey'.
    destruct (key <? 16), (key' <? 16); try done.
    unfold set_keys. cbn. f_equal. apply list_insert_insert_ne. lia.
Qed.

Lemma setKey_spec_witness :
  keys (setKey 0xA true Chip8_new) !! Z.to_nat 0xA = Some true ∧
  setKey 0x10 true Chip8_new = Chip8_new.
Proof.
  destruct (setKey_spec 0xA true Chip8_new) as (H1 & _).
  - apply wf_check. vm_compute. reflexivity.
  - unfold is_u8. lia.
  - destruct (setKey_spec 0x10 true Chip8_new) as (_ & H2 & _).
    + apply wf_check. vm_compute. reflexivity.
    + unfold is_u8. lia.
    + split; [apply H1; reflexivity | apply H2; lia].
Defined.

(** X19. [getPixel] answers false outside the 64 x 32 grid; inside it
    reads cell [y * 64 + x], which is inside the framebuffer, and each cell
    is one pixel: writing the cell of (x', y') changes [getPixel x y] only
    for (x, y) = (x', y'). *)
Theorem getPixel_addressing x y s :
  wf s → is_u8 x → is_u8 y →
  (64 <= x ∨ 32 <= y → getPixel x y s = false) ∧
  (x < 64 → y < 32 →
   ∃ p,
     display s !! Z.to_nat (y * 64 + x) = Some p ∧
     getPixel x y s = negb (p =? 0) ∧
     ∀ x' y' v,
       0 <= x' < 64 → 0 <= y' < 32 →
       getPixel x y
         (set_display (<[Z.to_nat (y' * 64 + x') := v]> (display s)) s)
       = if decide (x = x' ∧ y = y') then negb (v =? 0) else getPixel x y s).
Proof.
  intros Hwf Hx Hy. unfold is_u8 in Hx, Hy.
  assert (Z.of_nat (length (display s)) = 2048) as Hlen
    by (unfold wf, DISPLAY_WIDTH, DISPLAY_HEIGHT in Hwf;
        destruct Hwf as (_ & _ & _ & _ & _ & _ & Hd & _); by rewrite Hd).
  unfold getPixel, DISPLAY_WIDTH, DISPLAY_HEIGHT. split.
  - intros Hout.
    destruct (Z.geb_spec x 64), (Z.geb_spec y 32); cbn [orb]; try done; lia.
  - intros Hx64 Hy32.
    destruct (Z.geb_spec x 64), (Z.geb_spec y 32); cbn [orb]; try lia.
    destruct (lookup_lt_is_Some_2 (display s) (Z.to_nat (y * 64 + x)))
      as [p Hp]; [lia|].
    exists p. rewrite Hp. split; [done|]. split; [done|].
    intros x' y' v Hx' Hy'. cbn [display set_display].
    destruct (decide (x = x' ∧ y = y')) as [[-> ->] | Hne].
    + by rewrite list_lookup_insert_eq by lia.
    + rewrite list_lookup_insert_ne by lia. by rewrite Hp.
Qed.

Lemma getPixel_addressing_witness :
  ∃ p, display Chip8_new !! Z.to_nat (31 * 64 + 63) = Some p ∧
       getPixel 63 31 Chip8_new = negb (p =? 0).
Proof.
  destruct (getPixel_addressing 63 31 Chip8_new) as (_ & H).
  - apply wf_check. vm_compute. reflexivity.
  - unfold is_u8. lia.
  - unfold is_u8. lia.
  - destruct H as (p & H1 & H2 & _).
    + reflexivity.
    + reflexivity.
    + exists p. split; [exact H1 | exact H2].
Defined.

(** * Keyboard and display glue *)

Section HandleInput.
Context (IsKeyDown IsKeyUp : raylib_key → bool).
Implicit Types (s : Chip8) (l : list KeyMapping) (m : KeyMapping).

Let step := handleMapping IsKeyDown IsKeyUp.

Lemma handleMapping_frame s m : ∃ ks,
  step s m = set_keys ks s ∧ length ks = length (keys s).
Proof.
  unfold step, handleMapping, setKey.
  repeat case_match;
    first [ eexists; split; [reflexivity|]; by rewrite length_insert
          | exists (keys s); by destruct s ].
Qed.

Lemma handleMapping_other s m (c : Z) :
  0 <= c → 0 <= chip8Key m → c ≠ chip8Key m →
  keys (step s m) !! Z.to_nat c = keys s !! Z.to_nat c.
Proof.
  intros Hc Hm Hne. unfold step, handleMapping, setKey.
  repeat case_match; try done; cbn [keys set_keys];
    apply list_lookup_insert_ne; lia.
Qed.

Lemma handleMapping_same s m :
  0 <= chip8Key m < 16 → Z.of_nat (length (keys s)) = 16 →
  keys (step s m) !! Z.to_nat (chip8Key m)
  = if IsKeyDown (raylibKey m) then Some true
    else if IsKeyUp (raylibKey m) then Some false
    else keys s !! Z.to_nat (chip8Key m).
Proof.
  intros Hm Hlen. unfold step, handleMapping, setKey, KEY_COUNT.
  destruct (Z.ltb_spec (chip8Key m) 16); [|lia].
  destruct (IsKeyDown _); [|destruct (IsKeyUp _); [|done]];
    cbn [keys set_keys]; apply list_lookup_insert_eq; lia.
Qed.

Lemma handle_fold_frame l : ∀ s, ∃ ks,
  foldl step s l = set_keys ks s ∧ length ks = length (keys s).
Proof.
  induction l as [|m l IH]; intros s; cbn [foldl].
  - exists (keys s). by destruct s.
  - destruct (handleMapping_frame s m) as (ks1 & E1 & L1).
    destruct (IH (step s m)) as (ks & E & L).
    exists ks. rewrite E, E1. split; [done|].
    rewrite L, E1. done.
Qed.

Lemma handle_fold_other l (c : Z) : ∀ s,
  0 <= c → Forall (λ m, 0 <= chip8Key m < 16) l →
  c ∉ chip8Key <$> l →
  keys (foldl step s l) !! Z.to_nat c = keys s !! Z.to_nat c.
Proof.
  induction l as [|m l IH]; intros s Hc Hall Hnotin; cbn [foldl]; [done|].
  apply list.Forall_cons in Hall as [Hm Hall].
  rewrite fmap_cons in Hnotin. apply not_elem_of_cons in Hnotin as [Hne Hnotin].
  rewrite IH by done. apply handleMapping_other; [done | lia | done].
Qed.

Lemma handle_fold_same l : ∀ s m,
  NoDup (chip8Key <$> l) → Forall (λ m, 0 <= chip8Key m < 16) l →
  Z.of_nat (length (keys s)) = 16 → m ∈ l →
  keys (foldl step s l) !! Z.to_nat (chip8Key m)
  = if IsKeyDown (raylibKey m) then Some true
    else if IsKeyUp (raylibKey m) then Some false
    else keys s !! Z.to_nat (chip8Key m).
Proof.
  induction l as [|m0 l IH]; intros s m Hnd Hall Hlen Hin; cbn [foldl].
  - by apply elem_of_nil in Hin.
  - rewrite fmap_cons in Hnd. apply list.NoDup_cons in Hnd as [Hfresh Hnd].
    apply list.Forall_cons in Hall as [Hm0 Hall].
    apply elem_of_cons in Hin as [-> | Hin].
    + rewrite handle_fold_other by (done || lia).
      by apply handleMapping_same.
    + assert (Z.of_nat (length (keys (step s m0))) = 16) as Hlen'.
      { destruct (handleMapping_frame s m0) as (ks & E & L).
        rewrite E. cbn [keys set_keys]. by rewrite L. }
      rewrite (IH (step s m0) m) by done.
      assert (chip8Key m ≠ chip8Key m0) as Hne.
      { intros E. apply Hfresh. rewrite <- E. by apply list_elem_of_fmap_2. }
      rewrite list.Forall_forall in Hall.
      rewrite handleMapping_other; [done | | lia | done].
      specialize (Hall m Hin). lia.
Qed.

End HandleInput.

(** X20. After [handleInput], for each entry of [keyMap] the key flag of
    its CHIP-8 key is true when the physical key is down, false when it is
    up (and not down), and unchanged otherwise: no entry overwrites
    another, every CHIP-8 key 0..F has an entry, and only the key flags
    change. *)
Theorem handleInput_mirrors_keyboard (IsKeyDown IsKeyUp : raylib_key → bool) s :
  wf s →
  (∀ m, m ∈ keyMap →
     keys (handleInput IsKeyDown IsKeyUp s) !! Z.to_nat (chip8Key m)
     = if IsKeyDown (raylibKey m) then Some true
       else if IsKeyUp (raylibKey m) then Some false
       else keys s !! Z.to_nat (chip8Key m)) ∧
  (∀ c, 0 <= c < 16 → ∃ m, m ∈ keyMap ∧ chip8Key m = c) ∧
  handleInput IsKeyDown IsKeyUp s
  = set_keys (keys (handleInput IsKeyDown IsKeyUp s)) s.
Proof.
  intros Hwf.
  assert (Z.of_nat (length (keys s)) = 16) as Hlen
    by (unfold wf, KEY_COUNT in Hwf; tauto).
  split; [|split].
  - intros m Hin. unfold handleInput. apply handle_fold_same; try done.
    + apply (bool_decide_unpack _). vm_compute. reflexivity.
    + apply (bool_decide_unpack _). vm_compute. reflexivity.
  - intros c Hc.
    assert (c = 0 ∨ c = 1 ∨ c = 2 ∨ c = 3 ∨ c = 4 ∨ c = 5 ∨ c = 6 ∨ c = 7 ∨
            c = 8 ∨ c = 9 ∨ c = 10 ∨ c = 11 ∨ c = 12 ∨ c = 13 ∨ c = 14 ∨
            c = 15) as Hcases by lia.
    assert (c ∈ chip8Key <$> keyMap) as Hin.
    { repeat (destruct Hcases as [-> | Hcases];
              [apply (bool_decide_unpack _); vm_compute; reflexivity|]).
      rewrite Hcases. apply (bool_decide_unpack _). vm_compute. reflexivity. }
    apply list_elem_of_fmap in Hin as (m & -> & Hm). by exists m.
  - unfold handleInput.
    destruct (handle_fold_frame IsKeyDown IsKeyUp keyMap s) as (ks & -> & _).
    done.
Qed.

Lemma handleInput_mirrors_keyboard_witness :
  keys (handleInput (λ k, match k with KEY_X => true | _ => false end)
          (λ k, match k with KEY_X => false | _ => true end) Chip8_new)
    !! Z.to_nat (chip8Key (mkKeyMapping KEY_X 0x0))
  = Some true.
Proof.
  refine (proj1 (handleInput_mirrors_keyboard _ _ Chip8_new _)
            (mkKeyMapping KEY_X 0x0) _).
  - apply wf_check. vm_compute. reflexivity.
  - unfold keyMap. repeat constructor.
Defined.

(** X21. [renderDisplay] draws a rectangle exactly for the lit pixels:
    one white 15 x 15 square at (15 x, 15 y) for each (x, y) of the grid
    with [getPixel x y] true, and every rectangle it draws lies inside the
    960 x 480 window. *)
Theorem renderDisplay_rectangles fps s px py w h c :
  (DrawRectangle px py w h c ∈ renderDisplay fps s ↔
   ∃ x y, 0 <= x < 64 ∧ 0 <= y < 32 ∧ getPixel x y s = true ∧
          px = x * 15 ∧ py = y * 15 ∧ w = 15 ∧ h = 15 ∧ c = WHITE) ∧
  (DrawRectangle px py w h c ∈ renderDisplay fps s →
   0 <= px ∧ px + w <= WINDOW_WIDTH ∧ 0 <= py ∧ py + h <= WINDOW_HEIGHT).
Proof.
  assert (DrawRectangle px py w h c ∈ renderDisplay fps s ↔
          ∃ x y, 0 <= x < 64 ∧ 0 <= y < 32 ∧ getPixel x y s = true ∧
                 px = x * 15 ∧ py = y * 15 ∧ w = 15 ∧ h = 15 ∧ c = WHITE)
    as Hiff.
  { unfold renderDisplay, DISPLAY_WIDTH, DISPLAY_HEIGHT, SCALE_FACTOR.
    rewrite !elem_of_app, !elem_of_cons, !elem_of_nil, list_elem_of_bind.
    split.
    - intros [[?|[?|[]]] | [(y & Hin & Hy) | [?|[?|[]]]]]; try discriminate.
      apply list_elem_of_bind in Hin as (x & Hin & Hx).
      apply elem_of_seqZ in Hx, Hy.
      rewrite !wrap8_id in Hin by (unfold is_u8; lia).
      destruct (getPixel x y s) eqn:Hlit; [|by apply elem_of_nil in Hin].
      apply list_elem_of_singleton in Hin. injection Hin as -> -> -> -> ->.
      exists x, y. repeat split; (done || lia).
    - intros (x & y & Hx & Hy & Hlit & -> & -> & -> & -> & ->).
      right. left.
      exists y. split; [|apply elem_of_seqZ; lia].
      apply list_elem_of_bind. exists x. split; [|apply elem_of_seqZ; lia].
      rewrite !wrap8_id by (unfold is_u8; lia). rewrite Hlit.
      by apply list_elem_of_singleton. }
  split; [done|].
  intros Hin. apply Hiff in Hin as (x & y & Hx & Hy & _ & -> & -> & -> & -> & _).
  unfold WINDOW_WIDTH, WINDOW_HEIGHT, DISPLAY_WIDTH, DISPLAY_HEIGHT, SCALE_FACTOR.
  lia.
Qed.

Lemma renderDisplay_rectangles_witness :
  DrawRectangle (2 * 15) (1 * 15) 15 15 WHITE
    ∈ renderDisplay 60
        (set_display (<[Z.to_nat (1 * 64 + 2) := 1]> blank_display) Chip8_new).
Proof.
  apply (proj1 (renderDisplay_rectangles 60 _ _ _ _ _ _)).
  exists 2, 1. split; [lia|]. split; [lia|].
  split; [vm_compute; reflexivity|]. repeat split; reflexivity.
Defined.

(** * The instruction word and its operands *)

Section InstructionBytes.
Implicit Types (s : Chip8) (hi lo : Z).

(** The fields of the word [256 * hi + lo], in terms of its two bytes. *)
Lemma word_fields hi lo :
  is_u8 hi → is_u8 lo →
  Z.land (256 * hi + lo) 0xF000 = 4096 * (hi / 16) ∧
  ((256 * hi + lo) / 256) mod 16 = hi mod 16 ∧
  ((256 * hi + lo) / 16) mod 16 = lo / 16 ∧
  (256 * hi + lo) mod 256 = lo ∧
  (256 * hi + lo) mod 4096 = 256 * (hi mod 16) + lo.
Proof.
  unfold is_u8. intros Bhi Blo. rewrite land_F000.
  repeat split; Z.div_mod_to_equations; lia.
Qed.

End InstructionBytes.

(** X1. The fetch combines the byte at PC (high) and the byte at PC + 1
    (low) into the word [256 * hi + lo], and the instruction executed takes
    its operands from those two bytes: the high nibble of the first byte
    selects the instruction; 1NNN jumps to, and ANNN loads I with,
    [256 * (hi mod 16) + lo]; 3XNN compares register [hi mod 16] with the
    second byte; 5XYN compares registers [hi mod 16] and [lo / 16]; 6XNN
    writes the second byte into register [hi mod 16]. *)
Theorem instruction_bytes_decoded s hi lo :
  wf s →
  memory s !! Z.to_nat (pc s) = Some hi →
  memory s !! Z.to_nat (pc s + 1) = Some lo →
  let op := 256 * hi + lo in
  fetch s = Done op ∧
  (hi / 16 = 0x1 →
   emulateCycle s
   = Done (set_pc (256 * (hi mod 16) + lo) (set_opcode op s), [])) ∧
  (hi / 16 = 0x3 →
   ∃ vx, V s !! Z.to_nat (hi mod 16) = Some vx ∧
         emulateCycle s
         = Done (set_pc (pc s + (if vx =? lo then 4 else 2))
                   (set_opcode op s), [])) ∧
  (hi / 16 = 0x5 →
   ∃ vx vy, V s !! Z.to_nat (hi mod 16) = Some vx ∧
            V s !! Z.to_nat (lo / 16) = Some vy ∧
            emulateCycle s
            = Done (set_pc (pc s + (if vx =? vy then 4 else 2))
                      (set_opcode op s), [])) ∧
  (hi / 16 = 0x6 →
   emulateCycle s
   = Done (set_pc (pc s + 2)
             (set_V (<[Z.to_nat (hi mod 16) := lo]> (V s))
                (set_opcode op s)), [])) ∧
  (hi / 16 = 0xA →
   emulateCycle s
   = Done (set_pc (pc s + 2)
             (set_I (256 * (hi mod 16) + lo) (set_opcode op s)), [])).
Proof.
  intros Hwf Hhi Hlo op.
  pose proof (fetch_word s hi lo Hwf Hhi Hlo) as Hf. fold op in Hf.
  pose proof (memory_byte s _ hi Hwf Hhi) as Bhi.
  pose proof (memory_byte s _ lo Hwf Hlo) as Blo.
  destruct (word_fields hi lo Bhi Blo) as (Hfam & HX & HY & HNN & HNNN).
  fold op in Hfam, HX, HY, HNN, HNNN.
  split; [done|]. split; [|split; [|split; [|split]]]; intros Hk;
    rewrite Hk in Hfam;
    match type of Hfam with
    | _ = ?rhs => let v := eval vm_compute in rhs in change rhs with v in Hfam
    end.
  - rewrite (emulateCycle_fetch _ _ Hf). decode Hfam.
    by rewrite NNN_field, HNNN.
  - destruct (register_X s op Hwf) as (vx & Hvx & Hidx).
    rewrite HX in Hvx, Hidx. exists vx. split; [done|].
    rewrite (emulateCycle_fetch _ _ Hf). decode Hfam.
    rewrite X_field, NN_field, HX, HNN, Hidx. cbn [mbind outcome_bind].
    destruct (vx =? lo); by rewrite (next_pc s op) by (done || lia).
  - destruct (register_X s op Hwf) as (vx & Hvx & Hidx).
    destruct (register_Y s op Hwf) as (vy & Hvy & Hidy).
    rewrite HX in Hvx, Hidx. rewrite HY in Hvy, Hidy.
    exists vx, vy. split; [done|]. split; [done|].
    rewrite (emulateCycle_fetch _ _ Hf). decode Hfam.
    rewrite X_field, Y_field, HX, HY, Hidx. cbn [mbind outcome_bind].
    rewrite Hidy. cbn [mbind outcome_bind].
    destruct (vx =? vy); by rewrite (next_pc s op) by (done || lia).
  - rewrite (ld_step s op Hwf Hf Hfam). by rewrite HX, HNN.
  - rewrite (emulateCycle_fetch _ _ Hf). decode Hfam.
    by rewrite NNN_field, HNNN, (next_pc s op) by (done || lia).
Qed.

Lemma instruction_bytes_decoded_witness :
  emulateCycle (boot [x6a; x15])
  = Done (set_pc (pc (boot [x6a; x15]) + 2)
            (set_V (<[Z.to_nat (0x6A mod 16) := 0x15]> (V (boot [x6a; x15])))
               (set_opcode (256 * 0x6A + 0x15) (boot [x6a; x15]))), []).
Proof.
  refine (proj1 (proj2 (proj2 (proj2 (proj2
            (instruction_bytes_decoded (boot [x6a; x15]) 0x6A 0x15 _ _ _))))) _).
  - apply wf_check. vm_compute. reflexivity.
  - vm_compute. reflexivity.
  - vm_compute. reflexivity.
  - reflexivity.
Defined.
